(** * Hebrew gematria service: a shallow embedding and its properties

    The development follows the repository file by file:
    - [Py]       the few Python built-ins the code relies on (strings as
                 sequences of code points, [re.sub] with a character class,
                 [str.strip], [sum]);
    - [Backend]  backend.py: the letter-value table, [_normalize],
                 [get_gematria], [gematria_breakdown];
    - [Db]       the table [gematria_words] behind both ORM classes, with the
                 constraints its columns declare;
    - [SeedDb]   seed_db.py: the batch loader [main];
    - [Api]      api.py: request validation, the two POST handlers and the
                 GET route;
    - [Urllib], [ApiConfig]  [quote_plus], [os.getenv] and api.py's
                 [get_database_url];
    - [Spec]     the notions the properties are stated with (the Word Record
                 invariant, the reachable states of the store) and the data
                 of the worked examples.

    A Python [str] is modelled as the list of its code points ([N]); an [int]
    as [Z]; a raised exception as the left summand of a sum type. *)

From Stdlib Require Import ZArith NArith List Lia Permutation Sorted.
From Stdlib Require Import Ascii String.
From stdpp Require Import base decidable option list gmap sorting.
Import ListNotations.

Local Open Scope N_scope.

(* ===================================================================== *)
(** ** Python built-ins used by the code                                   *)
(* ===================================================================== *)

Module Py.

(** A code point; a [str] is a sequence of them. *)
Abbreviation char := N.
Abbreviation str := (list N).

(** One item of a regular-expression character class: a single character
    or an inclusive range [lo-hi]. *)
Inductive class_item : Type :=
  | Chr (c : char)
  | Rng (lo hi : char).

(** A compiled pattern that is a single character class, [[...]] or
    [[^...]]. *)
Record char_class : Type := CharClass {
  negated : bool;
  items : list class_item
}.

Definition item_matches (c : char) (it : class_item) : bool :=
  match it with
  | Chr d => c =? d
  | Rng lo hi => (lo <=? c) && (c <=? hi)
  end.

Definition class_matches (cls : char_class) (c : char) : bool :=
  xorb (negated cls) (existsb (item_matches c) (items cls)).

(** [pattern.sub('', text)]: every match of a one-character pattern is
    replaced by the empty string, i.e. the matching characters are dropped
    and the others are kept in order. *)
Definition sub_empty (cls : char_class) (text : str) : str :=
  List.filter (fun c => negb (class_matches cls c)) text.

(** [str.isspace] on one character, as CPython's [_PyUnicode_IsWhitespace]. *)
Definition isspace (c : char) : bool :=
  ((0x09 <=? c) && (c <=? 0x0D)) || ((0x1C <=? c) && (c <=? 0x20))
  || (c =? 0x85) || (c =? 0xA0) || (c =? 0x1680)
  || ((0x2000 <=? c) && (c <=? 0x200A))
  || (c =? 0x2028) || (c =? 0x2029) || (c =? 0x202F) || (c =? 0x205F)
  || (c =? 0x3000).

Fixpoint lstrip (s : str) : str :=
  match s with
  | c :: s' => if isspace c then lstrip s' else s
  | [] => []
  end.

Definition rstrip (s : str) : str := rev (lstrip (rev s)).

(** [s.strip()] with no argument. *)
Definition strip (s : str) : str := rstrip (lstrip s).

(** [sum(xs)] over integers: left to right from 0. *)
Definition sum (xs : list Z) : Z := fold_left Z.add xs 0%Z.

(** The exceptions the modelled code can raise: a failed dict subscript, and
    what an [INSERT] can end in: the unique index refuses a duplicate
    ([IntegrityError]), the driver refuses a string that holds the character
    NUL ([ValueError]), the server refuses an integer outside the column's
    range ([DataError]). *)
Inductive exn : Type :=
  | KeyError (key : char)
  | IntegrityError (duplicate : str)
  | ValueError
  | DataError.

(** A computation that returns an [A] or raises. *)
Definition raises (A : Type) : Type := (exn + A)%type.

Definition ret {A} (a : A) : raises A := inr a.
Definition raise {A} (e : exn) : raises A := inl e.
Definition bind {A B} (m : raises A) (k : A -> raises B) : raises B :=
  match m with
  | inl e => inl e
  | inr a => k a
  end.

Notation "'let*' x ':=' m 'in' k" := (bind m (fun x => k))
  (at level 10, x name, m at level 100, k at level 200).

(** [d[key]] on a dict. *)
Definition getitem (d : gmap N Z) (key : char) : raises Z :=
  match d !! key with
  | Some v => ret v
  | None => raise (KeyError key)
  end.

(** [d.get(key, dflt)] on a dict. *)
Definition get (d : gmap N Z) (key : char) (dflt : Z) : Z :=
  default dflt (d !! key).

Arguments getitem : simpl never.
Arguments get : simpl never.

End Py.

(* ===================================================================== *)
(** ** Names for the Hebrew letters                                        *)
(* ===================================================================== *)

Module Hebrew.
Import Py.

(** The 22 base letters and the 5 final forms, by code point. *)
Definition alef : char := 0x5D0.
Definition bet : char := 0x5D1.
Definition gimel : char := 0x5D2.
Definition dalet : char := 0x5D3.
Definition he : char := 0x5D4.
Definition vav : char := 0x5D5.
Definition zayin : char := 0x5D6.
Definition het : char := 0x5D7.
Definition tet : char := 0x5D8.
Definition yod : char := 0x5D9.
Definition final_kaf : char := 0x5DA.
Definition kaf : char := 0x5DB.
Definition lamed : char := 0x5DC.
Definition final_mem : char := 0x5DD.
Definition mem : char := 0x5DE.
Definition final_nun : char := 0x5DF.
Definition nun : char := 0x5E0.
Definition samekh : char := 0x5E1.
Definition ayin : char := 0x5E2.
Definition final_pe : char := 0x5E3.
Definition pe : char := 0x5E4.
Definition final_tsadi : char := 0x5E5.
Definition tsadi : char := 0x5E6.
Definition qof : char := 0x5E7.
Definition resh : char := 0x5E8.
Definition shin : char := 0x5E9.
Definition tav : char := 0x5EA.

(** Some marks of the block below the letters, used in examples. *)
Definition sheva : char := 0x5B0.
Definition hiriq : char := 0x5B4.
Definition tsere : char := 0x5B5.
Definition dagesh : char := 0x5BC.
Definition shin_dot : char := 0x5C1.

End Hebrew.

(* ===================================================================== *)
(** ** backend.py                                                          *)
(* ===================================================================== *)

Module Backend.
Import Py Hebrew.

(** [GEMATRIA_MAP], in the order of the dict literal. *)
Definition GEMATRIA_MAP : gmap N Z :=
  list_to_map
    [ (alef, 1); (bet, 2); (gimel, 3); (dalet, 4); (he, 5);
      (vav, 6); (zayin, 7); (het, 8); (tet, 9);
      (yod, 10); (kaf, 20); (lamed, 30); (mem, 40); (nun, 50);
      (samekh, 60); (ayin, 70); (pe, 80); (tsadi, 90);
      (qof, 100); (resh, 200); (shin, 300); (tav, 400);
      (final_kaf, 20); (final_mem, 40); (final_nun, 50); (final_pe, 80);
      (final_tsadi, 90) ]%Z.
Arguments GEMATRIA_MAP : simpl never.

(** [re.compile(r'[\u0591-\u05C7]')] *)
Definition NIQQUD_AND_TAAMIM : char_class :=
  CharClass false [Rng 0x591 0x5C7].

(** [re.compile(r'[^\u05D0-\u05EA\u05DA\u05DD\u05DF\u05E3\u05E5]')] *)
Definition NON_HEBREW : char_class :=
  CharClass true
    [Rng 0x5D0 0x5EA; Chr 0x5DA; Chr 0x5DD; Chr 0x5DF; Chr 0x5E3; Chr 0x5E5].

Definition _normalize (text : str) : str :=
  let text := sub_empty NIQQUD_AND_TAAMIM text in
  sub_empty NON_HEBREW text.

Definition get_gematria (text : str) : Z :=
  let text := _normalize text in
  Py.sum (map (fun ch => get GEMATRIA_MAP ch 0%Z) text).

(** The list comprehension [[(ch, GEMATRIA_MAP[ch]) for ch in text]]: the
    first failing subscript aborts it. *)
Fixpoint breakdown_pairs (text : str) : raises (list (char * Z)) :=
  match text with
  | [] => ret []
  | ch :: rest =>
      let* v := getitem GEMATRIA_MAP ch in
      let* ps := breakdown_pairs rest in
      ret ((ch, v) :: ps)
  end.

Definition gematria_breakdown (text : str) : raises (list (char * Z)) :=
  let text := _normalize text in
  breakdown_pairs text.

End Backend.

(* ===================================================================== *)
(** ** The table [gematria_words]                                          *)
(* ===================================================================== *)

Module Db.
Import Py.

(** One row. [created_at] is the creation instant as a number (a larger
    number is a later instant); [ORDER BY created_at] compares these. *)
Record row : Type := Row {
  id : N;
  text : str;
  normalized : str;
  gematria : Z;
  created_at : N
}.

(** The table in insertion order, and the sequence behind the
    auto-incremented primary key. *)
Record database : Type := Database {
  gematria_words : list row;
  id_seq : N
}.

(** A freshly created, empty table. *)
Definition empty : database := Database [] 1.

(** The values an [INSERT] supplies; [id] comes from the sequence. *)
Record new_row : Type := NewRow {
  new_text : str;
  new_normalized : str;
  new_gematria : Z;
  new_created_at : N
}.

(** [normalized] is declared [unique=True]: is the value already taken? *)
Definition normalized_taken (key : str) (rows : list row) : bool :=
  existsb (fun r => bool_decide (normalized r = key)) rows.

(** The range of an [Integer] column (int4). *)
Definition int4_min : Z := -2147483648.
Definition int4_max : Z := 2147483647.

(** Does the string hold the character NUL? The driver sends no such
    string. *)
Definition has_nul (s : str) : bool := existsb (N.eqb 0) s.

(** [INSERT INTO gematria_words]. The driver refuses a string parameter
    that holds NUL before anything is sent; the server refuses a [gematria]
    outside the column's range; then the sequence advances and the unique
    index on [normalized] either accepts the row or refuses it. *)
Definition insert (v : new_row) (db : database) : database * option exn :=
  if has_nul (new_text v) || has_nul (new_normalized v)
  then (db, Some ValueError)
  else if (new_gematria v <? int4_min)%Z || (int4_max <? new_gematria v)%Z
  then (db, Some DataError)
  else
    let db1 := Database (gematria_words db) (id_seq db + 1) in
    if normalized_taken (new_normalized v) (gematria_words db)
    then (db1, Some (IntegrityError (new_normalized v)))
    else
      let r := Row (id_seq db) (new_text v) (new_normalized v)
                   (new_gematria v) (new_created_at v) in
      (Database (gematria_words db ++ [r]) (id_seq db + 1), None).

(** [ROLLBACK]: the rows return to what they were when the transaction
    began; a sequence is not transactional. *)
Definition rollback (before now : database) : database :=
  Database (gematria_words before) (id_seq now).

(** [ORDER BY created_at DESC]: [a] may precede [b]. *)
Definition created_at_desc (a b : row) : Prop := created_at b <= created_at a.

#[global] Instance created_at_desc_dec a b : Decision (created_at_desc a b).
Proof. unfold created_at_desc. apply _. Defined.

(** [ORDER BY created_at DESC] says nothing about rows of equal
    [created_at]: the database lists them in an order of its choosing, which
    may differ from one query to the next. A query therefore comes with a
    [tiebreak], the database's choice for it: among rows of equal
    [created_at], a row of smaller [tiebreak] is listed first. Every order
    the clause allows on distinct rows is the order of some [tiebreak]. *)
Definition created_at_desc_then (tiebreak : row -> N) (a b : row) : Prop :=
  created_at b < created_at a \/
  (created_at a = created_at b /\ tiebreak a <= tiebreak b).

#[global] Instance created_at_desc_then_dec tiebreak a b :
  Decision (created_at_desc_then tiebreak a b).
Proof. unfold created_at_desc_then. apply _. Defined.

Definition order_by_created_at_desc (tiebreak : row -> N) (rows : list row)
  : list row :=
  merge_sort (created_at_desc_then tiebreak) rows.

End Db.

(* ===================================================================== *)
(** ** seed_db.py                                                          *)
(* ===================================================================== *)

Module SeedDb.
Import Py Hebrew.

(** The ORM object as the script constructs it; [id] and [created_at] are
    filled in when it is flushed. *)
Record GematriaWords : Type := MkGematriaWords {
  text : str;
  normalized : str;
  gematria : Z
}.

(** The pattern [r'[^X-Y]'] where the source writes X and Y as the letters
    U+05D0 (alef) and U+05EA (tav) themselves. *)
Definition NOT_ALEF_TO_TAV : char_class := CharClass true [Rng 0x5D0 0x5EA].

Definition normalize (word : str) : str := sub_empty NOT_ALEF_TO_TAV word.

(** [gematria_values], in the order of the dict literal. *)
Definition gematria_values : gmap N Z :=
  list_to_map
    [ (alef, 1); (bet, 2); (gimel, 3); (dalet, 4); (he, 5); (vav, 6);
      (zayin, 7); (het, 8); (tet, 9);
      (yod, 10); (kaf, 20); (final_kaf, 20); (lamed, 30); (mem, 40);
      (final_mem, 40); (nun, 50); (final_nun, 50);
      (samekh, 60); (ayin, 70); (pe, 80); (final_pe, 80); (tsadi, 90);
      (final_tsadi, 90);
      (qof, 100); (resh, 200); (shin, 300); (tav, 400) ]%Z.
Arguments gematria_values : simpl never.

(** The generator [gematria_values[char] for char in word], consumed by
    [sum] from left to right: the first failing subscript aborts it. *)
Fixpoint sum_values (acc : Z) (word : str) : raises Z :=
  match word with
  | [] => ret acc
  | ch :: rest =>
      let* v := getitem gematria_values ch in
      sum_values (acc + v)%Z rest
  end.

Definition gematria_value (word : str) : raises Z := sum_values 0%Z word.

(** The loop body of [main] for one line: the object handed to
    [session.add]. *)
Definition candidate (line : str) : raises GematriaWords :=
  let stripped_word := normalize line in
  let* value := gematria_value stripped_word in
  ret (MkGematriaWords (strip line) stripped_word value).

(** [for line in file: ... session.add(...)]: the session's pending
    objects, in the order they were added. *)
Fixpoint add_all (file : list str) (pending : list GematriaWords)
  : raises (list GematriaWords) :=
  match file with
  | [] => ret pending
  | line :: rest =>
      let* w := candidate line in
      add_all rest (pending ++ [w])
  end.

(** [session.commit()] flushes the pending objects in order, one [INSERT]
    each; the column default [datetime.utcnow] is read once per row
    ([utcnow i] is the reading for the [i]-th row of this run). The first
    refused row stops the flush. (When several rows of one file would be
    refused for different reasons, which refusal is met first depends on how
    the driver groups the rows; the run fails in every case.) *)
Fixpoint flush (utcnow : nat -> N) (i : nat) (pending : list GematriaWords)
  (db : Db.database) : Db.database * option exn :=
  match pending with
  | [] => (db, None)
  | w :: rest =>
      let v := Db.NewRow (text w) (normalized w) (gematria w) (utcnow i) in
      match Db.insert v db with
      | (db', None) => flush utcnow (S i) rest db'
      | (db', Some e) => (db', Some e)
      end
  end.

(** [main]: the whole run is one transaction ([with session.begin()]); an
    exception raised inside it rolls the table back and propagates. [file]
    is the sequence of lines that iterating [words.txt] yields. *)
Definition main (utcnow : nat -> N) (file : list str) (db : Db.database)
  : Db.database * option exn :=
  match add_all file [] with
  | inl e => (db, Some e)
  | inr pending =>
      match flush utcnow 0 pending db with
      | (db', None) => (db', None)
      | (db', Some e) => (Db.rollback db db', Some e)
      end
  end.

End SeedDb.

(* ===================================================================== *)
(** ** api.py                                                              *)
(* ===================================================================== *)

Module Api.
Import Py.

(** Why pydantic refused a request body. *)
Inductive validation_error : Type :=
  | string_too_short            (* [min_length=1] *)
  | value_error                 (* [validate_hebrew] raised [ValueError] *)
  | greater_than_equal (bound : Z)   (* [ge=...] *)
  | less_than_equal (bound : Z).     (* [le=...] *)

(** What the framework sends back: the handler's value, or 422
    Unprocessable Entity when the body does not validate. *)
Inductive http_response (A : Type) : Type :=
  | HTTP_200 (body : A)
  | HTTP_422 (detail : validation_error).
Arguments HTTP_200 {A} body.
Arguments HTTP_422 {A} detail.

Module WordRequest.
Record t : Type := Make { word : str }.

(** The field validator: the word must keep at least one letter. *)
Definition validate_hebrew (v : str) : validation_error + str :=
  let normalized := Backend._normalize v in
  match normalized with
  | [] => inl value_error
  | _ :: _ => inr v
  end.

(** Building the model from a body: the declared constraint
    [min_length=1], then the field validator. *)
Definition validate (word : str) : validation_error + t :=
  if (length word <? 1)%nat then inl string_too_short
  else
    match validate_hebrew word with
    | inl e => inl e
    | inr v => inr (Make v)
    end.
End WordRequest.

Module GematriaResponse.
Record t : Type := Make {
  word : str;
  normalized : str;
  gematria : Z
}.
End GematriaResponse.

Module TopWordsRequest.
Record t : Type := Make {
  gematria : Z;
  limit : Z
}.

(** [gematria: ge=0]; [limit]: default 10 when the body has no such field
    ([None]), [ge=1], [le=100]. Of the failing fields the first in
    declaration order is kept as the detail. *)
Definition validate (gematria : Z) (limit : option Z) : validation_error + t :=
  if (gematria <? 0)%Z then inl (greater_than_equal 0)
  else
    let limit := default 10%Z limit in
    if (limit <? 1)%Z then inl (greater_than_equal 1)
    else if (100 <? limit)%Z then inl (less_than_equal 100)
    else inr (Make gematria limit).
End TopWordsRequest.

Module TopWordsResponse.
Record t : Type := Make {
  gematria : Z;
  count : nat;
  words : list GematriaResponse.t
}.
End TopWordsResponse.

(** A handler receives the database and returns it with its response. *)
Definition handler (A : Type) : Type :=
  Db.database -> http_response A * Db.database.

(** The body of [calculate_gematria], on a validated request. It takes no
    database session. *)
Definition calculate_gematria_body (request : WordRequest.t)
  : GematriaResponse.t :=
  let normalized := Backend._normalize (WordRequest.word request) in
  let gematria_value := Backend.get_gematria (WordRequest.word request) in
  GematriaResponse.Make (WordRequest.word request) normalized gematria_value.

(** POST /gematria/calculate *)
Definition calculate_gematria (word : str) : handler GematriaResponse.t :=
  fun db =>
    match WordRequest.validate word with
    | inl e => (HTTP_422 e, db)
    | inr request => (HTTP_200 (calculate_gematria_body request), db)
    end.

(** [db.query(GematriaWord).filter(GematriaWord.gematria == g)] *)
Definition filter_gematria (g : Z) (rows : list Db.row) : list Db.row :=
  List.filter (fun w => (Db.gematria w =? g)%Z) rows.

Definition to_response (w : Db.row) : GematriaResponse.t :=
  GematriaResponse.Make (Db.text w) (Db.normalized w) (Db.gematria w).

(** The body of [get_top_words], on a validated request: two read-only
    queries. [tiebreak] is the database's order of ties in the first. *)
Definition get_top_words_body (tiebreak : Db.row -> N)
  (request : TopWordsRequest.t) (db : Db.database) : TopWordsResponse.t :=
  let g := TopWordsRequest.gematria request in
  let words :=
    take (Z.to_nat (TopWordsRequest.limit request))
      (Db.order_by_created_at_desc tiebreak
         (filter_gematria g (Db.gematria_words db))) in
  let total_count := length (filter_gematria g (Db.gematria_words db)) in
  TopWordsResponse.Make g total_count (map to_response words).

(** POST /gematria/top *)
Definition get_top_words (tiebreak : Db.row -> N) (gematria : Z)
  (limit : option Z) : handler TopWordsResponse.t :=
  fun db =>
    match TopWordsRequest.validate gematria limit with
    | inl e => (HTTP_422 e, db)
    | inr request => (HTTP_200 (get_top_words_body tiebreak request db), db)
    end.

(** What a client receives from a route with a path parameter whose handler
    can raise: 404 Not Found when the path matches no route, the handler's
    reply, or 500 Internal Server Error when the handler raises an exception
    that the framework has no handler for. *)
Inductive served (A : Type) : Type :=
  | HTTP_404
  | Replied (r : http_response A)
  | HTTP_500 (raised : validation_error).
Arguments HTTP_404 {A}.
Arguments Replied {A} r.
Arguments HTTP_500 {A} raised.

(** The path [/gematria/word/{word}] matches when [word] is one path
    segment: at least one character, none of them a slash. *)
Definition path_segment (word : str) : bool :=
  match word with
  | [] => false
  | _ :: _ => negb (existsb (N.eqb 0x2F) word)
  end.

(** The body of [get_word_gematria]. The path parameter is a plain [str];
    [WordRequest(word=word)] is built inside the handler, so a refusal is a
    pydantic [ValidationError] raised by the handler itself. *)
Definition get_word_gematria_body (word : str)
  : validation_error + GematriaResponse.t :=
  match WordRequest.validate word with
  | inl e => inl e
  | inr request =>
      let normalized := Backend._normalize (WordRequest.word request) in
      let gematria_value := Backend.get_gematria (WordRequest.word request) in
      inr (GematriaResponse.Make (WordRequest.word request) normalized
                                 gematria_value)
  end.

(** GET /gematria/word/{word}, for the text [word] that follows
    [/gematria/word/] in the decoded path: the router calls the handler only
    when that text is one path segment. *)
Definition get_word_gematria (word : str)
  : Db.database -> served GematriaResponse.t * Db.database :=
  fun db =>
    if path_segment word then
      match get_word_gematria_body word with
      | inl e => (HTTP_500 e, db)
      | inr body => (Replied (HTTP_200 body), db)
      end
    else (HTTP_404, db).

End Api.

(* ===================================================================== *)
(** ** urllib.parse.quote_plus and os.getenv                               *)
(* ===================================================================== *)

Module Urllib.
Import Py.

(** A [str.encode('utf-8')] that met a surrogate code point. *)
Inductive UnicodeEncodeError : Type := MkUnicodeEncodeError (c : char).

Definition is_surrogate (c : char) : bool := (0xD800 <=? c) && (c <=? 0xDFFF).

(** The UTF-8 bytes of one code point, with the error handler ['strict']. *)
Definition utf8_char (c : char) : UnicodeEncodeError + list N :=
  if c <? 0x80 then inr [c]
  else if c <? 0x800 then inr [0xC0 + c / 64; 0x80 + c mod 64]
  else if c <? 0x10000 then
    if is_surrogate c then inl (MkUnicodeEncodeError c)
    else inr [0xE0 + c / 4096; 0x80 + (c / 64) mod 64; 0x80 + c mod 64]
  else inr [0xF0 + c / 262144; 0x80 + (c / 4096) mod 64;
            0x80 + (c / 64) mod 64; 0x80 + c mod 64].

Fixpoint utf8 (s : str) : UnicodeEncodeError + list N :=
  match s with
  | [] => inr []
  | c :: rest =>
      match utf8_char c with
      | inl e => inl e
      | inr bs =>
          match utf8 rest with
          | inl e => inl e
          | inr bs' => inr (bs ++ bs')
          end
      end
  end.

(** [_ALWAYS_SAFE]: the ASCII letters and digits and [_.-~]. *)
Definition always_safe (b : N) : bool :=
  ((0x41 <=? b) && (b <=? 0x5A)) || ((0x61 <=? b) && (b <=? 0x7A))
  || ((0x30 <=? b) && (b <=? 0x39))
  || (b =? 0x5F) || (b =? 0x2E) || (b =? 0x2D) || (b =? 0x7E).

(** One upper-case hexadecimal digit. *)
Definition hexdigit (n : N) : char :=
  if n <? 10 then 0x30 + n else 0x41 + (n - 10).

(** ['%{:02X}'.format(b)] *)
Definition percent (b : N) : str := [0x25; hexdigit (b / 16); hexdigit (b mod 16)].

(** [quote_from_bytes(bs, safe)], where [safe] is empty or the space alone. *)
Definition quote_from_bytes (space_safe : bool) (bs : list N) : str :=
  flat_map (fun b => if always_safe b || (space_safe && (b =? 0x20))
                     then [b] else percent b) bs.

(** [quote(string, safe)] on a [str]. *)
Definition quote (space_safe : bool) (string : str)
  : UnicodeEncodeError + str :=
  match string with
  | [] => inr []
  | _ :: _ =>
      match utf8 string with
      | inl e => inl e
      | inr bs => inr (quote_from_bytes space_safe bs)
      end
  end.

(** [s.replace(' ', '+')] *)
Definition replace_space_plus (s : str) : str :=
  map (fun c => if c =? 0x20 then 0x2B else c) s.

(** [quote_plus(string)] with its default arguments. *)
Definition quote_plus (string : str) : UnicodeEncodeError + str :=
  if negb (existsb (N.eqb 0x20) string) then quote false string
  else
    match quote true string with
    | inl e => inl e
    | inr q => inr (replace_space_plus q)
    end.

End Urllib.

(* ===================================================================== *)
(** ** api.py: configuration                                               *)
(* ===================================================================== *)

Module ApiConfig.
Import Py Urllib.

(** The process environment: the value of a variable, if it is set. *)
Definition environ : Type := string -> option str.

(** [os.getenv(key, default)] *)
Definition getenv (env : environ) (key : string) (dflt : str) : str :=
  default dflt (env key).

(** A string literal of ASCII characters, as a [str]. *)
Definition lit (s : string) : str := map N_of_ascii (list_ascii_of_string s).

Definition get_database_url (env : environ) : UnicodeEncodeError + str :=
  let db_username := getenv env "DB_USERNAME" (lit "user") in
  let db_password := getenv env "DB_PASSWORD" (lit "password") in
  let db_endpoint := getenv env "DB_ENDPOINT" (lit "localhost") in
  let db_port := getenv env "DB_PORT" (lit "5432") in
  let db_name := getenv env "DB_NAME" (lit "gematria_db") in
  match quote_plus db_password with
  | inl e => inl e
  | inr encoded_password =>
      inr (lit "postgresql://" ++ db_username ++ lit ":" ++ encoded_password
           ++ lit "@" ++ db_endpoint ++ lit ":" ++ db_port ++ lit "/"
           ++ db_name)
  end.

End ApiConfig.

(* ===================================================================== *)
(** ** Notions used to state the properties                                *)
(* ===================================================================== *)

Module Spec.
Import Py Hebrew.

(** One of the 27 letters: a code point of the range U+05D0..U+05EA. *)
Definition is_letter (c : char) : bool := (0x5D0 <=? c) && (c <=? 0x5EA).

(** The 27 code points of that range, in order. *)
Definition letters : list char := map N.of_nat (seq 1488 27).

(** The Word Record invariant on the stored rows: [normalized] is unique,
    and [gematria] is what the letter-value table gives for [normalized]. *)
Definition word_record_invariant (db : Db.database) : Prop :=
  List.NoDup (map Db.normalized (Db.gematria_words db)) /\
  Forall (fun r => Db.gematria r = Backend.get_gematria (Db.normalized r))
         (Db.gematria_words db).

(** One defined operation takes the store from one state to the next. *)
Inductive step : Db.database -> Db.database -> Prop :=
  | step_ingest utcnow file db :
      step db (fst (SeedDb.main utcnow file db))
  | step_lookup tiebreak gematria limit db :
      step db (snd (Api.get_top_words tiebreak gematria limit db))
  | step_calculate word db :
      step db (snd (Api.calculate_gematria word db)).

(** The states the store can be in, starting from the empty table. *)
Inductive reachable : Db.database -> Prop :=
  | reachable_empty : reachable Db.empty
  | reachable_step db db' : reachable db -> step db db' -> reachable db'.

(** The row that a committed run of [main] stores for the [i]-th line of
    its file. *)
Definition stored_row (utcnow : nat -> N) (db : Db.database) (i : nat)
  (line : str) : Db.row :=
  Db.Row (Db.id_seq db + N.of_nat i) (strip line) (SeedDb.normalize line)
         (Backend.get_gematria line) (utcnow i).

(** The object that the loop of [main] adds for a line. *)
Definition added (line : str) : SeedDb.GematriaWords :=
  SeedDb.MkGematriaWords (strip line) (SeedDb.normalize line)
                         (Backend.get_gematria line).

(** The row that [flush] stores for the [j]-th pending object when it
    starts at reading [i] of the clock on [db]. *)
Definition flushed (utcnow : nat -> N) (i : nat) (db : Db.database) (j : nat)
  (w : SeedDb.GematriaWords) : Db.row :=
  Db.Row (Db.id_seq db + N.of_nat j) (SeedDb.text w) (SeedDb.normalized w)
         (SeedDb.gematria w) (utcnow (i + j)%nat).

(** The unique index accepts a run that inserts [keys], in this order, on
    top of [db]: no key repeats and none is stored already. *)
Definition keys_fresh (keys : list str) (db : Db.database) : Prop :=
  List.NoDup keys /\
  Forall (fun k => ~ In k (map Db.normalized (Db.gematria_words db))) keys.

(** The word of the worked example, bare and pointed. [bereshit_pointed]
    has its marks in the order of the specification's text, and
    [bereshit_pointed'] in the order of the example list of backend.py. *)
Definition bereshit : str :=
  [bet; resh; alef; shin; yod; tav].
Definition bereshit_pointed : str :=
  [bet; sheva; dagesh; resh; tsere; alef; shin; hiriq; shin_dot; yod; tav].
Definition bereshit_pointed' : str :=
  [bet; dagesh; sheva; resh; tsere; alef; shin; shin_dot; hiriq; yod; tav].

(** A line without the character NUL. *)
Definition no_nul (line : str) : Prop := ~ In 0 line.

(** A line whose value the integer column can hold. *)
Definition in_int4 (line : str) : Prop :=
  (Backend.get_gematria line <= Db.int4_max)%Z.

(** A pending object that the driver and the integer column let through. *)
Definition object_fits (w : SeedDb.GematriaWords) : Prop :=
  Db.has_nul (SeedDb.text w) = false /\
  Db.has_nul (SeedDb.normalized w) = false /\
  (Db.int4_min <= SeedDb.gematria w <= Db.int4_max)%Z.

(** The table as modelled refuses no line of [file] on top of [db]. *)
Definition accepted (file : list str) (db : Db.database) : Prop :=
  keys_fresh (map SeedDb.normalize file) db /\
  Forall no_nul file /\ Forall in_int4 file.

(** Why a run of [main] on [file] raised [e]: some line of the file gives
    that refusal. *)
Definition refused_for (e : exn) (file : list str) (db : Db.database) : Prop :=
  (exists key, e = IntegrityError key /\
               ~ keys_fresh (map SeedDb.normalize file) db) \/
  (e = ValueError /\ Exists (fun line => In 0 line) file) \/
  (e = DataError /\ Exists (fun line => ~ in_int4 line) file).

(** A line of at most 1000 Hebrew letters. The table has limits that this
    development does not model (an index entry, hence a [normalized] value,
    cannot be arbitrarily long); a line of this size is below them, and its
    value is below [int4_max]. Statements that a run commits are made for
    such lines. *)
Definition fits (line : str) : Prop :=
  (length (SeedDb.normalize line) <= 1000)%nat.

(** A clock for examples: the [i]-th reading is [i]. *)
Definition tick (i : nat) : N := N.of_nat i.

(** A file for examples: a blank line alone. *)
Definition blank_file : list str := [[0x0A]].

(** A file for examples: the pointed word, a word of value 26, and a line
    of Latin letters, each ended by a line feed. *)
Definition words_file : list str :=
  [ bereshit_pointed ++ [0x0A]; [yod; he; vav; he; 0x0A]; [0x61; 0x62; 0x0A] ].

(** A store for examples: two rows of value 913 around one of value 26. *)
Definition row_a : Db.row := Db.Row 1 bereshit bereshit 913 10.
Definition row_b : Db.row :=
  Db.Row 3 [tav; shin; resh; yod; bet; alef] [tav; shin; resh; yod; bet; alef]
         913 30.
Definition row_c : Db.row :=
  Db.Row 2 [yod; he; vav; he] [yod; he; vav; he] 26 20.
Definition three_rows : Db.database := Db.Database [row_a; row_c; row_b] 4.

(** The base letter of a final form; any other character is itself. *)
Definition base_form (c : char) : char :=
  if c =? final_kaf then kaf
  else if c =? final_mem then mem
  else if c =? final_nun then nun
  else if c =? final_pe then pe
  else if c =? final_tsadi then tsadi
  else c.

(** What every row stored by the loader satisfies on its own: [normalized]
    and [gematria] are those of its [text]. *)
Definition row_of_its_text (r : Db.row) : Prop :=
  Db.normalized r = Backend._normalize (Db.text r) /\
  Db.gematria r = Backend.get_gematria (Db.text r).

(** The primary key: no [id] repeats and the sequence is above them all. *)
Definition ids_fresh (db : Db.database) : Prop :=
  List.NoDup (map Db.id (Db.gematria_words db)) /\
  Forall (fun r => Db.id r < Db.id_seq db) (Db.gematria_words db).

(** A character that a URL may carry unescaped, or [+], or [%]. *)
Definition url_plain (c : char) : bool :=
  Urllib.always_safe c || (c =? 0x2B) || (c =? 0x25).

(** A code point of the Unicode range. *)
Definition code_point (c : char) : Prop := c <= 0x10FFFF.

(** The value of a hexadecimal digit. *)
Definition hexval (c : char) : option N :=
  if (0x30 <=? c) && (c <=? 0x39) then Some (c - 0x30)
  else if (0x41 <=? c) && (c <=? 0x46) then Some (c - 0x41 + 10)
  else if (0x61 <=? c) && (c <=? 0x66) then Some (c - 0x61 + 10)
  else None.

(** Reading an escaped URL field back into bytes: [+] is a space, [%] and
    two hexadecimal digits are one byte, any other character is itself. *)
Fixpoint unquote_plus (s : str) : option (list N) :=
  match s with
  | [] => Some []
  | c :: rest =>
      if c =? 0x25 then
        match rest with
        | h1 :: h2 :: rest' =>
            match hexval h1, hexval h2, unquote_plus rest' with
            | Some a, Some b, Some bs => Some (16 * a + b :: bs)
            | _, _, _ => None
            end
        | _ => None
        end
      else
        option_map (cons (if c =? 0x2B then 0x20 else c)) (unquote_plus rest)
  end.

(** Reading UTF-8 bytes back into code points. *)
Fixpoint utf8_decode (bs : list N) : option str :=
  match bs with
  | [] => Some []
  | b :: rest =>
      if b <? 0x80 then option_map (cons b) (utf8_decode rest)
      else if b <? 0xE0 then
        match rest with
        | b2 :: rest' =>
            option_map (cons ((b - 0xC0) * 64 + (b2 - 0x80)))
                       (utf8_decode rest')
        | _ => None
        end
      else if b <? 0xF0 then
        match rest with
        | b2 :: b3 :: rest' =>
            option_map
              (cons ((b - 0xE0) * 4096 + (b2 - 0x80) * 64 + (b3 - 0x80)))
              (utf8_decode rest')
        | _ => None
        end
      else
        match rest with
        | b2 :: b3 :: b4 :: rest' =>
            option_map
              (cons ((b - 0xF0) * 262144 + (b2 - 0x80) * 4096
                     + (b3 - 0x80) * 64 + (b4 - 0x80)))
              (utf8_decode rest')
        | _ => None
        end
  end.

(** Reading the password back from its field of the URL. *)
Definition decode_password (field : str) : option str :=
  match unquote_plus field with
  | Some bs => utf8_decode bs
  | None => None
  end.

(** The characters that stand for one byte [b] in an escaped field, where
    [plus] tells whether a space is written [+]. *)
Definition escaped (plus : bool) (b : N) : str :=
  if Urllib.always_safe b then [b]
  else if plus && (b =? 0x20) then [0x2B]
  else Urllib.percent b.

(** An environment for examples: only the password is set, to [p@ s/1]. *)
Definition env_password : ApiConfig.environ :=
  fun key => if String.eqb key "DB_PASSWORD"
             then Some [0x70; 0x40; 0x20; 0x73; 0x2F; 0x31] else None.

End Spec.

(* ===================================================================== *)
(** ** Properties of the core (backend.py)                                 *)
(* ===================================================================== *)

Section Core.
Import Py Hebrew Backend Spec.

Lemma filter_filter {A} (f g : A -> bool) (l : list A) :
  List.filter f (List.filter g l) = List.filter (fun x => g x && f x) l.
Proof.
  induction l as [|x l IH]; simpl; [reflexivity|].
  destruct (g x); simpl; [destruct (f x)|]; now rewrite IH.
Qed.

(** Dropping the matches of two classes does not depend on the order. *)
Lemma sub_empty_comm (p q : char_class) (s : str) :
  sub_empty p (sub_empty q s) = sub_empty q (sub_empty p s).
Proof.
  unfold sub_empty. rewrite !filter_filter.
  apply List.filter_ext. intros c. apply andb_comm.
Qed.

Lemma NON_HEBREW_matches c : class_matches NON_HEBREW c = negb (is_letter c).
Proof.
  unfold class_matches, is_letter; simpl.
  destruct (N.leb_spec 0x5D0 c), (N.leb_spec c 0x5EA); simpl; try reflexivity;
    repeat match goal with
           | |- context [c =? ?k] => destruct (N.eqb_spec c k); [lia|]; simpl
           end; reflexivity.
Qed.

Lemma NIQQUD_matches_not_letter c :
  class_matches NIQQUD_AND_TAAMIM c = true -> is_letter c = false.
Proof.
  unfold class_matches, is_letter; simpl. rewrite orb_false_r.
  intros [H1 H2]%andb_prop.
  apply N.leb_le in H1, H2.
  destruct (N.leb_spec 0x5D0 c); [lia | reflexivity].
Qed.

(** [_normalize] keeps exactly the letters, in order. *)
Lemma _normalize_filter s : _normalize s = List.filter is_letter s.
Proof.
  unfold _normalize, sub_empty. rewrite filter_filter.
  apply List.filter_ext. intros c. rewrite NON_HEBREW_matches, negb_involutive.
  destruct (class_matches NIQQUD_AND_TAAMIM c) eqn:E; simpl; [|reflexivity].
  symmetry. now apply NIQQUD_matches_not_letter.
Qed.

Lemma _normalize_letters s c : In c (_normalize s) -> is_letter c = true.
Proof. rewrite _normalize_filter. now intros [_ H]%filter_In. Qed.

Lemma _normalize_idem s : _normalize (_normalize s) = _normalize s.
Proof.
  rewrite !_normalize_filter, filter_filter. apply List.filter_ext.
  intros c. apply andb_diag.
Qed.

Lemma is_letter_letters c : is_letter c = true -> In c letters.
Proof.
  unfold is_letter, letters. intros [H1 H2]%andb_prop.
  apply N.leb_le in H1, H2. apply in_map_iff.
  exists (N.to_nat c). split; [apply N2Nat.id|]. apply in_seq. lia.
Qed.

Lemma letters_checked :
  forallb (fun c => match GEMATRIA_MAP !! c with
                    | Some v => (0 <? v)%Z
                    | None => false
                    end) letters = true.
Proof. vm_compute. reflexivity. Qed.

(** Every letter is a key of the table, with a positive value. *)
Lemma letter_is_key c :
  is_letter c = true -> exists v, GEMATRIA_MAP !! c = Some v /\ (0 < v)%Z.
Proof.
  intros H%is_letter_letters.
  pose proof (proj1 (forallb_forall _ _) letters_checked c H) as Hc.
  cbv beta in Hc. destruct (GEMATRIA_MAP !! c) as [v|]; [|discriminate].
  exists v. split; [reflexivity|]. now apply Z.ltb_lt.
Qed.

Lemma sum_from acc l : fold_left Z.add l acc = (acc + Py.sum l)%Z.
Proof.
  unfold Py.sum. revert acc.
  induction l as [|x l IH]; intros acc; simpl; [lia|].
  rewrite (IH (acc + x)%Z), (IH (0 + x)%Z). lia.
Qed.

Lemma sum_cons x l : Py.sum (x :: l) = (x + Py.sum l)%Z.
Proof. unfold Py.sum at 1. simpl. now rewrite sum_from. Qed.

(** On letters only, the comprehension of [gematria_breakdown] succeeds and
    pairs every letter with its table value. *)
Lemma breakdown_pairs_letters s :
  Forall (fun c => is_letter c = true) s ->
  breakdown_pairs s = inr (map (fun ch => (ch, get GEMATRIA_MAP ch 0%Z)) s).
Proof.
  induction 1 as [|c s Hc _ IH]; [reflexivity|].
  cbn [breakdown_pairs map].
  destruct (letter_is_key c Hc) as (v & Hv & _).
  unfold getitem, get. rewrite Hv, IH. reflexivity.
Qed.

Lemma _normalize_Forall s : Forall (fun c => is_letter c = true) (_normalize s).
Proof. apply List.Forall_forall. intros c. apply _normalize_letters. Qed.

Lemma letters_in_range :
  forallb (fun c => (1 <=? get GEMATRIA_MAP c 0)%Z
                    && (get GEMATRIA_MAP c 0 <=? 400)%Z) letters = true.
Proof. vm_compute. reflexivity. Qed.

Lemma letter_value_range c :
  is_letter c = true -> (1 <= get GEMATRIA_MAP c 0 <= 400)%Z.
Proof.
  intros H%is_letter_letters.
  pose proof (proj1 (forallb_forall _ _) letters_in_range c H) as Hc.
  cbv beta in Hc. apply andb_prop in Hc as [H1 H2].
  apply Z.leb_le in H1, H2. lia.
Qed.

Lemma letters_sum_range (l : str) :
  Forall (fun c => is_letter c = true) l ->
  (Z.of_nat (length l) <= Py.sum (map (fun ch => get GEMATRIA_MAP ch 0%Z) l)
   <= 400 * Z.of_nat (length l))%Z.
Proof.
  induction 1 as [|c l Hc _ IH].
  - cbn. lia.
  - cbn [map length]. rewrite sum_cons.
    pose proof (letter_value_range c Hc). lia.
Qed.

(** C3. For every string, [_normalize], [get_gematria] and
    [gematria_breakdown] each produce a value and none raises: every
    character that survives normalization is a key of the letter-value
    table, so the subscript inside the breakdown always succeeds. *)
Theorem core_operations_total (s : str) :
  exists (n : str) (v : Z) (ps : list (char * Z)),
    _normalize s = n /\ get_gematria s = v /\ gematria_breakdown s = inr ps /\
    (forall ch, In ch n -> exists x, getitem GEMATRIA_MAP ch = inr x).
Proof.
  exists (_normalize s), (get_gematria s),
    (map (fun ch => (ch, get GEMATRIA_MAP ch 0%Z)) (_normalize s)).
  repeat split.
  - unfold gematria_breakdown. apply breakdown_pairs_letters, _normalize_Forall.
  - intros ch Hch. apply _normalize_letters in Hch.
    destruct (letter_is_key ch Hch) as (x & Hx & _).
    exists x. unfold getitem. now rewrite Hx.
Qed.

(** C4. The gematria value of a string is the sum of the values listed in
    its breakdown. *)
Theorem gematria_is_sum_of_breakdown (s : str) :
  exists ps, gematria_breakdown s = inr ps /\
             get_gematria s = Py.sum (map snd ps).
Proof.
  eexists. split.
  - unfold gematria_breakdown. apply breakdown_pairs_letters, _normalize_Forall.
  - unfold get_gematria. f_equal. rewrite map_map. reflexivity.
Qed.

Lemma get_gematria_filter (s : str) :
  get_gematria s =
    Py.sum (map (fun ch => get GEMATRIA_MAP ch 0%Z) (List.filter is_letter s)).
Proof. unfold get_gematria. now rewrite _normalize_filter. Qed.

(** C5. Scoring is invariant under normalization. *)
Theorem gematria_of_normalized (s : str) :
  get_gematria (_normalize s) = get_gematria s.
Proof.
  rewrite !get_gematria_filter, _normalize_filter, filter_filter.
  do 2 f_equal. apply List.filter_ext. intros c. apply andb_diag.
Qed.

(** C8. The pointed word normalizes to the bare one, whose value is 913,
    with the per-letter values 2, 200, 1, 300, 10 and 400. *)
Theorem bereshit_example :
  _normalize bereshit_pointed = bereshit /\
  _normalize bereshit_pointed' = bereshit /\
  get_gematria bereshit = 913%Z /\
  gematria_breakdown bereshit =
    inr [(bet, 2); (resh, 200); (alef, 1); (shin, 300); (yod, 10);
         (tav, 400)]%Z.
Proof. repeat split; vm_compute; reflexivity. Qed.

(** C9. Removing the marks and then the non-letters gives the same string
    as removing the non-letters and then the marks. *)
Theorem normalization_steps_commute (s : str) :
  _normalize s = sub_empty NIQQUD_AND_TAAMIM (sub_empty NON_HEBREW s).
Proof. unfold _normalize. apply sub_empty_comm. Qed.

Lemma NOT_ALEF_TO_TAV_matches c :
  class_matches SeedDb.NOT_ALEF_TO_TAV c = negb (is_letter c).
Proof. unfold class_matches, is_letter; simpl. now rewrite orb_false_r. Qed.

Lemma normalize_filter s : SeedDb.normalize s = List.filter is_letter s.
Proof.
  unfold SeedDb.normalize, sub_empty. apply List.filter_ext. intros c.
  now rewrite NOT_ALEF_TO_TAV_matches, negb_involutive.
Qed.

(** C10. The seeding script and the backend normalize alike: the range
    alef..tav holds the five final forms, and no mark of U+0591..U+05C7 lies
    in it, so both patterns keep the same characters. *)
Theorem normalize_agree :
  (forall s, SeedDb.normalize s = _normalize s) /\
  Forall (fun c => class_matches SeedDb.NOT_ALEF_TO_TAV c = false)
         [final_kaf; final_mem; final_nun; final_pe; final_tsadi] /\
  (forall c, class_matches NIQQUD_AND_TAAMIM c = true ->
             class_matches SeedDb.NOT_ALEF_TO_TAV c = true).
Proof.
  split; [|split].
  - intros s. now rewrite normalize_filter, _normalize_filter.
  - repeat constructor.
  - intros c H%NIQQUD_matches_not_letter.
    now rewrite NOT_ALEF_TO_TAV_matches, H.
Qed.

End Core.

(* ===================================================================== *)
(** ** Properties of the API handlers (api.py)                             *)
(* ===================================================================== *)

Section Handlers.
Import Py Hebrew Backend Spec Api.



#[local] Instance created_at_desc_total : Total Db.created_at_desc.
Proof. intros a b. unfold Db.created_at_desc. lia. Qed.

#[local] Instance created_at_desc_trans : Transitive Db.created_at_desc.
Proof. intros a b c. unfold Db.created_at_desc. lia. Qed.

Lemma filter_Permutation_bool {A} (f : A -> bool) (l l' : list A) :
  Permutation l l' -> Permutation (List.filter f l) (List.filter f l').
Proof.
  induction 1 as [|x l l' _ IH|x y l|l l' l'' _ IH1 _ IH2]; simpl.
  - constructor.
  - destruct (f x); [now constructor | assumption].
  - destruct (f x), (f y); try reflexivity. constructor.
  - now transitivity (List.filter f l').
Qed.

#[local] Instance created_at_desc_then_total tiebreak :
  Total (Db.created_at_desc_then tiebreak).
Proof. intros a b. unfold Db.created_at_desc_then. lia. Qed.

#[local] Instance created_at_desc_then_trans tiebreak :
  Transitive (Db.created_at_desc_then tiebreak).
Proof. intros a b c. unfold Db.created_at_desc_then. lia. Qed.

Lemma StronglySorted_weaken {A} (R R' : A -> A -> Prop) (l : list A) :
  (forall x y, R x y -> R' x y) -> StronglySorted R l -> StronglySorted R' l.
Proof.
  intros HR. induction 1 as [|x l _ IH Hx]; constructor; [assumption|].
  eapply List.Forall_impl; [|exact Hx]. apply HR.
Qed.

(** Whatever the order of ties, the rows come out most recent first. *)
Lemma order_by_created_at_desc_sorted tiebreak (rows : list Db.row) :
  Permutation (Db.order_by_created_at_desc tiebreak rows) rows /\
  StronglySorted Db.created_at_desc (Db.order_by_created_at_desc tiebreak rows).
Proof.
  split; [apply merge_sort_Permutation|].
  apply (StronglySorted_weaken (Db.created_at_desc_then tiebreak)).
  - intros x y. unfold Db.created_at_desc_then, Db.created_at_desc. lia.
  - apply StronglySorted_merge_sort; apply _.
Qed.

(** What the lookup answers on a validated request: the count of all the
    matching rows, and the first [limit] of them in some descending order
    of [created_at]. *)
Lemma get_top_words_body_spec tiebreak (request : TopWordsRequest.t)
  (db : Db.database) :
  let g := TopWordsRequest.gematria request in
  let n := Z.to_nat (TopWordsRequest.limit request) in
  let matching := filter_gematria g (Db.gematria_words db) in
  exists sorted,
    Permutation sorted matching /\
    StronglySorted Db.created_at_desc sorted /\
    get_top_words_body tiebreak request db =
      TopWordsResponse.Make g (length matching)
        (map (fun r => GematriaResponse.Make (Db.text r) (Db.normalized r)
                                             (Db.gematria r))
             (take n sorted)).
Proof.
  intros g n matching.
  exists (Db.order_by_created_at_desc tiebreak matching).
  destruct (order_by_created_at_desc_sorted tiebreak matching) as [Hp Hs].
  split; [exact Hp|]. split; [exact Hs|]. reflexivity.
Qed.

Lemma validate_top_words_ok g limit request :
  TopWordsRequest.validate g limit = inr request ->
  TopWordsRequest.gematria request = g /\
  TopWordsRequest.limit request = default 10%Z limit /\
  (0 <= g)%Z /\ (1 <= TopWordsRequest.limit request <= 100)%Z.
Proof.
  unfold TopWordsRequest.validate.
  destruct (Z.ltb_spec g 0); [discriminate|].
  destruct (Z.ltb_spec (default 10%Z limit) 1); [discriminate|].
  destruct (Z.ltb_spec 100 (default 10%Z limit)); [discriminate|].
  intros [= <-]. cbn. lia.
Qed.

(** C6. On a store holding exactly three rows, two of value 913 and one of
    value 26, the lookup of 913 with limit 1 answers count 2 and one record:
    the text, normalized form and value of a row of value 913 that is at
    least as recent as the other. In general, on a valid request the answer
    counts every matching row and lists at most [limit] of them, the most
    recently created first. Both hold whatever order the database gives to
    rows of equal [created_at]. *)
Theorem get_top_words_response :
  (forall tiebreak (a b c : Db.row) (db : Db.database),
     Permutation (Db.gematria_words db) [a; b; c] ->
     Db.gematria a = 913%Z -> Db.gematria b = 913%Z -> Db.gematria c = 26%Z ->
     exists w,
       (w = a \/ w = b) /\
       Db.created_at a <= Db.created_at w /\
       Db.created_at b <= Db.created_at w /\
       get_top_words tiebreak 913 (Some 1%Z) db =
         (HTTP_200
            (TopWordsResponse.Make 913 2
               [GematriaResponse.Make (Db.text w) (Db.normalized w) 913]),
          db)) /\
  (forall tiebreak (g : Z) (limit : option Z) (request : TopWordsRequest.t)
          (db : Db.database),
     TopWordsRequest.validate g limit = inr request ->
     let n := Z.to_nat (TopWordsRequest.limit request) in
     let matching := filter_gematria g (Db.gematria_words db) in
     exists sorted,
       Permutation sorted matching /\
       StronglySorted Db.created_at_desc sorted /\
       (length (take n sorted) <= n)%nat /\
       get_top_words tiebreak g limit db =
         (HTTP_200
            (TopWordsResponse.Make g (length matching)
               (map (fun r => GematriaResponse.Make (Db.text r)
                                (Db.normalized r) (Db.gematria r))
                    (take n sorted))), db)).
Proof.
  split.
  - intros tiebreak a b c db Hperm Ha Hb Hc.
    unfold get_top_words. change (TopWordsRequest.validate 913 (Some 1%Z))
      with (@inr validation_error _ (TopWordsRequest.Make 913 1)).
    destruct (get_top_words_body_spec tiebreak (TopWordsRequest.Make 913 1) db)
      as (sorted & Hs & Hsorted & ->).
    cbn [TopWordsRequest.gematria TopWordsRequest.limit] in *.
    assert (Hm : Permutation (filter_gematria 913 (Db.gematria_words db)) [a; b]).
    { unfold filter_gematria.
      rewrite (filter_Permutation_bool _ _ _ Hperm). simpl.
      rewrite Ha, Hb, Hc. reflexivity. }
    rewrite (Permutation_length Hm).
    rewrite Hm in Hs. symmetry in Hs.
    apply Permutation_length_2_inv in Hs as [-> | ->];
      apply StronglySorted_inv in Hsorted as [_ Hhd];
      apply Forall_cons_1 in Hhd as [Hhd _]; unfold Db.created_at_desc in Hhd.
    + exists a. split; [now left|]. split; [lia|]. split; [exact Hhd|].
      change (Z.to_nat 1) with 1%nat. cbn. now rewrite Ha.
    + exists b. split; [now right|]. split; [exact Hhd|]. split; [lia|].
      change (Z.to_nat 1) with 1%nat. cbn. now rewrite Hb.
  - intros tiebreak g limit request db Hv n matching.
    destruct (validate_top_words_ok _ _ _ Hv) as (Hg & _).
    destruct (get_top_words_body_spec tiebreak request db)
      as (sorted & Hs & Hsorted & Hb).
    rewrite Hg in Hs, Hb.
    exists sorted. repeat split; try assumption.
    + apply firstn_le_length.
    + unfold get_top_words. rewrite Hv, Hb. reflexivity.
Qed.

Lemma get_top_words_response_witness :
  get_top_words Db.id 913 (Some 1%Z) three_rows =
    (HTTP_200
       (TopWordsResponse.Make 913 2
          [GematriaResponse.Make [tav; shin; resh; yod; bet; alef]
                                 [tav; shin; resh; yod; bet; alef] 913]),
     three_rows).
Proof.
  destruct (proj1 get_top_words_response Db.id row_a row_b row_c three_rows)
    as (w & [-> | ->] & Ha & Hb & Hw);
    [apply perm_skip, perm_swap | reflexivity .. | | exact Hw].
  exfalso. cbn in Hb. lia.
Defined.

End Handlers.

(* ===================================================================== *)
(** ** Properties of the batch loader (seed_db.py) and of the store        *)
(* ===================================================================== *)

Section Ingestion.
Import Py Hebrew Backend Spec.

(** Both scripts carry the same letter-value table. *)
Lemma gematria_values_eq : SeedDb.gematria_values = GEMATRIA_MAP.
Proof. apply map_eq. intros c. vm_compute. reflexivity. Qed.

(** On letters only, the seeding script's sum succeeds and agrees with the
    backend's letter values. *)
Lemma sum_values_letters (word : str) (acc : Z) :
  Forall (fun c => is_letter c = true) word ->
  SeedDb.sum_values acc word =
    inr (acc + Py.sum (map (fun ch => get GEMATRIA_MAP ch 0%Z) word))%Z.
Proof.
  intros H. revert acc.
  induction H as [|c word Hc _ IH]; intros acc.
  - cbn. unfold ret. f_equal. unfold Py.sum. cbn. lia.
  - cbn [SeedDb.sum_values map]. rewrite sum_cons.
    destruct (letter_is_key c Hc) as (v & Hv & _).
    unfold getitem, get. rewrite gematria_values_eq, Hv. cbn.
    rewrite IH. f_equal. unfold get. lia.
Qed.

Lemma gematria_value_normalize (line : str) :
  SeedDb.gematria_value (SeedDb.normalize line) = inr (get_gematria line).
Proof.
  unfold SeedDb.gematria_value.
  rewrite normalize_filter, <- _normalize_filter.
  rewrite sum_values_letters by apply _normalize_Forall.
  reflexivity.
Qed.

Lemma candidate_added (line : str) : SeedDb.candidate line = inr (added line).
Proof.
  unfold SeedDb.candidate. now rewrite gematria_value_normalize.
Qed.

Lemma add_all_added (file : list str) (pending : list SeedDb.GematriaWords) :
  SeedDb.add_all file pending = inr (pending ++ map added file).
Proof.
  revert pending. induction file as [|line file IH]; intros pending; cbn.
  - now rewrite app_nil_r.
  - rewrite candidate_added. cbn. rewrite IH, <- app_assoc. reflexivity.
Qed.

Lemma normalized_taken_In (key : str) (rows : list Db.row) :
  Db.normalized_taken key rows = true <-> In key (map Db.normalized rows).
Proof.
  unfold Db.normalized_taken. rewrite existsb_exists, in_map_iff.
  split; intros (r & H1 & H2); exists r.
  - apply bool_decide_eq_true in H2. tauto.
  - rewrite bool_decide_eq_true. tauto.
Qed.

Lemma has_nul_In (s : str) : Db.has_nul s = true <-> In 0 s.
Proof.
  unfold Db.has_nul. rewrite existsb_exists. split.
  - intros (c & Hc & E). apply N.eqb_eq in E. now subst.
  - intros H. exists 0. split; [exact H | reflexivity].
Qed.

Lemma has_nul_false (s : str) : Db.has_nul s = false <-> ~ In 0 s.
Proof.
  rewrite <- has_nul_In. destruct (Db.has_nul s); split; congruence.
Qed.

Lemma In_lstrip (c : char) (s : str) :
  isspace c = false -> In c (lstrip s) <-> In c s.
Proof.
  intros Hc. induction s as [|d s IH]; [reflexivity|]. cbn [lstrip].
  destruct (isspace d) eqn:E; [|reflexivity].
  rewrite IH. cbn [In]. split; [tauto|]. intros [-> | H]; [congruence | exact H].
Qed.

(** Stripping a line neither removes nor adds a character that is not
    white space. *)
Lemma In_strip (c : char) (s : str) :
  isspace c = false -> In c (strip s) <-> In c s.
Proof.
  intros Hc. unfold strip, rstrip.
  rewrite <- in_rev, (In_lstrip c _ Hc), <- in_rev. now apply In_lstrip.
Qed.

Lemma get_gematria_ge_0 (s : str) : (0 <= get_gematria s)%Z.
Proof.
  pose proof (letters_sum_range (_normalize s) (_normalize_Forall s)) as H.
  fold (get_gematria s) in H. lia.
Qed.

Lemma fits_in_int4 (line : str) : fits line -> in_int4 line.
Proof.
  unfold fits, in_int4, Db.int4_max. intros H.
  pose proof (letters_sum_range (_normalize line) (_normalize_Forall line)) as Hs.
  fold (get_gematria line) in Hs.
  rewrite normalize_filter, <- _normalize_filter in H. lia.
Qed.

(** What the loop adds for a line passes the driver and the integer column
    exactly when the line holds no NUL and its value is in range. *)
Lemma added_fits (line : str) :
  object_fits (added line) <-> no_nul line /\ in_int4 line.
Proof.
  unfold object_fits, added, no_nul, in_int4.
  cbn [SeedDb.text SeedDb.normalized SeedDb.gematria].
  rewrite !has_nul_false, (In_strip 0 line eq_refl).
  pose proof (get_gematria_ge_0 line). unfold Db.int4_min.
  split; [tauto|]. intros [H1 H2]. split; [exact H1|]. split; [|lia].
  rewrite normalize_filter. intros [_ H0]%filter_In. discriminate.
Qed.

(** The four ways an [INSERT] ends. *)
Lemma insert_cases (v : Db.new_row) (db : Db.database) :
  (Db.has_nul (Db.new_text v) || Db.has_nul (Db.new_normalized v) = true /\
   Db.insert v db = (db, Some ValueError)) \/
  (~ (Db.int4_min <= Db.new_gematria v <= Db.int4_max)%Z /\
   Db.insert v db = (db, Some DataError)) \/
  (In (Db.new_normalized v) (map Db.normalized (Db.gematria_words db)) /\
   Db.insert v db =
     (Db.Database (Db.gematria_words db) (Db.id_seq db + 1),
      Some (IntegrityError (Db.new_normalized v)))) \/
  ((Db.has_nul (Db.new_text v) = false /\
    Db.has_nul (Db.new_normalized v) = false /\
    (Db.int4_min <= Db.new_gematria v <= Db.int4_max)%Z /\
    ~ In (Db.new_normalized v) (map Db.normalized (Db.gematria_words db))) /\
   Db.insert v db =
     (Db.Database
        (Db.gematria_words db ++
         [Db.Row (Db.id_seq db) (Db.new_text v) (Db.new_normalized v)
                 (Db.new_gematria v) (Db.new_created_at v)])
        (Db.id_seq db + 1), None)).
Proof.
  unfold Db.insert.
  destruct (Db.has_nul (Db.new_text v)) eqn:E1; [now left|].
  destruct (Db.has_nul (Db.new_normalized v)) eqn:E2; [now left|].
  cbn [orb]. right.
  destruct (Z.ltb_spec (Db.new_gematria v) Db.int4_min);
    [left; split; [lia | reflexivity]|].
  destruct (Z.ltb_spec Db.int4_max (Db.new_gematria v));
    [left; split; [lia | reflexivity]|].
  cbn [orb]. right.
  destruct (Db.normalized_taken _ _) eqn:E3.
  - left. split; [now apply normalized_taken_In | reflexivity].
  - right. split; [|reflexivity]. repeat split; try assumption; try lia.
    intros Hin. apply normalized_taken_In in Hin. congruence.
Qed.

(** The keys of a batch are fresh when the first is, and the others are
    fresh once the first is stored. *)
Lemma keys_fresh_cons (k : str) (ks : list str) (rows : list Db.row)
  (s s' : N) (r : Db.row) :
  Db.normalized r = k ->
  keys_fresh (k :: ks) (Db.Database rows s) <->
  ~ In k (map Db.normalized rows) /\
  keys_fresh ks (Db.Database (rows ++ [r]) s').
Proof.
  intros Hr. unfold keys_fresh. cbn [Db.gematria_words].
  rewrite List.NoDup_cons_iff, Forall_cons, map_app. cbn [map]. rewrite Hr.
  rewrite !List.Forall_forall. split.
  - intros ([Hk Hnd] & Hk' & Hout). split; [exact Hk'|]. split; [exact Hnd|].
    intros x Hx Hin. apply in_app_or in Hin as [Hin | [<- | []]].
    + now apply (Hout x).
    + contradiction.
  - intros (Hk' & Hnd & Hout). repeat split; try assumption.
    + intros Hin. apply (Hout k Hin), in_or_app. right. now left.
    + intros x Hx Hin. apply (Hout x Hx), in_or_app. now left.
Qed.

(** The two ways a flush ends: every pending object is stored, or the
    first refusal is raised. *)
Lemma flush_outcome utcnow (pending : list SeedDb.GematriaWords) :
  forall (i : nat) (db : Db.database),
    (keys_fresh (map SeedDb.normalized pending) db /\
     Forall object_fits pending /\
     SeedDb.flush utcnow i pending db =
       (Db.Database (Db.gematria_words db ++ imap (flushed utcnow i db) pending)
                    (Db.id_seq db + N.of_nat (length pending)), None)) \/
    (exists db' e,
        SeedDb.flush utcnow i pending db = (db', Some e) /\
        ((exists key, e = IntegrityError key /\
                      ~ keys_fresh (map SeedDb.normalized pending) db) \/
         (e = ValueError /\
          Exists (fun w => Db.has_nul (SeedDb.text w)
                           || Db.has_nul (SeedDb.normalized w) = true)
                 pending) \/
         (e = DataError /\
          Exists (fun w => ~ (Db.int4_min <= SeedDb.gematria w
                              <= Db.int4_max)%Z) pending))).
Proof.
  induction pending as [|w pending IH]; intros i db.
  - left. split; [split; constructor|]. split; [constructor|].
    destruct db as [rows k]. cbn. now rewrite app_nil_r, N.add_0_r.
  - cbn [SeedDb.flush map].
    destruct (insert_cases
                (Db.NewRow (SeedDb.text w) (SeedDb.normalized w)
                           (SeedDb.gematria w) (utcnow i)) db)
      as [[Hn ->] | [[Hr ->] | [[Hin ->] | [(Hn1 & Hn2 & Hr & Hin) ->]]]];
      cbn [Db.new_text Db.new_normalized Db.new_gematria Db.new_created_at]
        in *.
    + right. do 2 eexists. split; [reflexivity|]. right. left.
      split; [reflexivity|]. now left.
    + right. do 2 eexists. split; [reflexivity|]. right. right.
      split; [reflexivity|]. now left.
    + right. do 2 eexists. split; [reflexivity|]. left. eexists.
      split; [reflexivity|]. intros [_ Hout].
      apply Forall_cons_1 in Hout as [Hw _]. contradiction.
    + set (r := Db.Row (Db.id_seq db) (SeedDb.text w) (SeedDb.normalized w)
                       (SeedDb.gematria w) (utcnow i)).
      destruct db as [rows s]. cbn [Db.gematria_words Db.id_seq] in *.
      pose proof (keys_fresh_cons (SeedDb.normalized w)
                    (map SeedDb.normalized pending) rows s (s + 1) r eq_refl)
        as Hkeys.
      destruct (IH (S i) (Db.Database (rows ++ [r]) (s + 1)))
        as [(Hk & Hfit & ->) | (db' & e & -> & Hwhy)].
      * left. split; [apply Hkeys; now split|].
        split; [constructor; [now repeat split | exact Hfit]|].
        cbn [Db.gematria_words Db.id_seq length]. rewrite <- app_assoc.
        cbn [app]. f_equal. f_equal; [|lia]. f_equal.
        rewrite imap_cons. f_equal.
        { unfold flushed, r. cbn [Db.id_seq].
          now rewrite N.add_0_r, Nat.add_0_r. }
        apply imap_ext. intros j x _. unfold flushed. cbn.
        f_equal; [lia | f_equal; lia].
      * right. exists db', e. split; [reflexivity|].
        destruct Hwhy as [(key & -> & Hno) | [[-> Hex] | [-> Hex]]].
        -- left. exists key. split; [reflexivity|].
           intros H. apply Hno. now apply Hkeys in H.
        -- right. left. split; [reflexivity | now right].
        -- right. right. split; [reflexivity | now right].
Qed.

Lemma map_normalized_added (file : list str) :
  map SeedDb.normalized (map added file) = map SeedDb.normalize file.
Proof. rewrite map_map. reflexivity. Qed.

Lemma imap_flushed_added utcnow (db : Db.database) (file : list str) :
  imap (flushed utcnow 0 db) (map added file) = imap (stored_row utcnow db) file.
Proof.
  change (map added file) with (added <$> file). rewrite imap_fmap.
  apply imap_ext. reflexivity.
Qed.

Lemma Forall_added_fits (file : list str) :
  Forall object_fits (map added file) <->
  Forall no_nul file /\ Forall in_int4 file.
Proof.
  induction file as [|line file IH]; cbn [map].
  - split; [split; constructor | constructor].
  - rewrite !Forall_cons, IH, added_fits. tauto.
Qed.

(** The two ways a run of [main] can end: it commits one row per line, or
    it raises a refusal that some line of the file gives, and the rows are
    as they were. *)
Lemma main_outcome utcnow (file : list str) (db : Db.database) :
  (accepted file db /\
   SeedDb.main utcnow file db =
     (Db.Database
        (Db.gematria_words db ++ imap (stored_row utcnow db) file)
        (Db.id_seq db + N.of_nat (length file)), None)) \/
  (~ accepted file db /\
   exists db' e,
     SeedDb.main utcnow file db = (db', Some e) /\
     Db.gematria_words db' = Db.gematria_words db /\
     refused_for e file db).
Proof.
  unfold SeedDb.main. rewrite add_all_added. cbn [app].
  destruct (flush_outcome utcnow (map added file) 0 db)
    as [(Hk & Hfit & ->) | (db' & e & -> & Hwhy)].
  - left. rewrite map_normalized_added in Hk.
    apply Forall_added_fits in Hfit.
    split; [split; assumption|].
    now rewrite imap_flushed_added, length_map.
  - rewrite map_normalized_added in Hwhy.
    assert (Hwhy' : refused_for e file db).
    { destruct Hwhy as [(key & -> & Hno) | [[-> Hx] | [-> Hx]]].
      - left. eauto.
      - right. left. split; [reflexivity|].
        apply List.Exists_exists in Hx as (w & Hw & Hnul).
        apply in_map_iff in Hw as (line & <- & Hline).
        apply List.Exists_exists. exists line. split; [exact Hline|].
        unfold added in Hnul. cbn [SeedDb.text SeedDb.normalized] in Hnul.
        apply orb_prop in Hnul as [H | H]; apply has_nul_In in H.
        + now apply (In_strip 0 line eq_refl).
        + rewrite normalize_filter in H. apply filter_In in H as [_ H].
          discriminate.
      - right. right. split; [reflexivity|].
        apply List.Exists_exists in Hx as (w & Hw & Hout).
        apply in_map_iff in Hw as (line & <- & Hline).
        apply List.Exists_exists. exists line. split; [exact Hline|].
        unfold added in Hout. cbn [SeedDb.gematria] in Hout.
        pose proof (get_gematria_ge_0 line). unfold in_int4, Db.int4_min in *.
        lia. }
    right. split; [|exists (Db.rollback db db'), e; now repeat split].
    intros (Hk & Hnul & Hint).
    destruct Hwhy' as [(key & _ & Hno) | [[_ Hx] | [_ Hx]]];
      [contradiction | |];
      apply List.Exists_exists in Hx as (line & Hline & Hbad).
    + now apply (proj1 (List.Forall_forall _ _) Hnul line Hline).
    + now apply Hbad, (proj1 (List.Forall_forall _ _) Hint line Hline).
Qed.


Lemma map_normalized_stored utcnow (db : Db.database) (file : list str) :
  map Db.normalized (imap (stored_row utcnow db) file) =
    map SeedDb.normalize file.
Proof.
  change (map Db.normalized (imap (stored_row utcnow db) file))
    with (Db.normalized <$> imap (stored_row utcnow db) file).
  rewrite fmap_imap. apply imap_const.
Qed.

Lemma stored_row_gematria utcnow (db : Db.database) (i : nat) (line : str) :
  Db.gematria (stored_row utcnow db i line) =
    get_gematria (Db.normalized (stored_row utcnow db i line)).
Proof.
  unfold stored_row. cbn [Db.gematria Db.normalized].
  rewrite normalize_filter, !get_gematria_filter, filter_filter.
  do 2 f_equal. apply List.filter_ext. intros c. symmetry. apply andb_diag.
Qed.

Lemma main_preserves_invariant utcnow (file : list str) (db : Db.database) :
  word_record_invariant db ->
  word_record_invariant (fst (SeedDb.main utcnow file db)).
Proof.
  intros [Hnd Hg]. unfold word_record_invariant.
  destruct (main_outcome utcnow file db)
    as [(([Hk Hout] & _) & ->) | (_ & db' & e & -> & Hrows & _)]; cbn [fst].
  - cbn [Db.gematria_words]. split.
    + rewrite map_app, map_normalized_stored.
      apply List.NoDup_app; [assumption | assumption |].
      intros k Hin Hin'.
      now apply (proj1 (List.Forall_forall _ _) Hout k Hin').
    + apply Forall_app_2; [assumption|].
      apply List.Forall_forall. intros r Hr.
      apply list_elem_of_In, elem_of_lookup_imap in Hr as (i & line & -> & _).
      apply stored_row_gematria.
  - now rewrite Hrows.
Qed.

Lemma step_preserves_invariant (db db' : Db.database) :
  word_record_invariant db -> step db db' -> word_record_invariant db'.
Proof.
  intros Hinv Hstep.
  destruct Hstep as [utcnow file db | tiebreak g limit db | word db].
  - now apply main_preserves_invariant.
  - unfold Api.get_top_words.
    now destruct (Api.TopWordsRequest.validate g limit).
  - unfold Api.calculate_gematria.
    now destruct (Api.WordRequest.validate word).
Qed.




(** C2. Every state the store can reach from the empty table satisfies the
    Word Record invariant, and each operation (a run of the loader, a
    lookup, a calculation) preserves it. *)
Theorem word_record_invariant_holds :
  (forall db, reachable db -> word_record_invariant db) /\
  (forall db db',
     word_record_invariant db -> step db db' -> word_record_invariant db').
Proof.
  split; [|exact step_preserves_invariant].
  induction 1 as [|db db' _ IH Hstep].
  - split; constructor.
  - now apply (step_preserves_invariant db).
Qed.

Lemma word_record_invariant_holds_witness :
  word_record_invariant
    (snd (Api.get_top_words Db.id 913 None
            (fst (SeedDb.main tick words_file Db.empty)))).
Proof.
  apply (proj1 word_record_invariant_holds).
  eapply reachable_step; [|apply step_lookup].
  eapply reachable_step; [apply reachable_empty | apply step_ingest].
Defined.

End Ingestion.

(* ===================================================================== *)
(** ** Further properties of the core (backend.py)                         *)
(* ===================================================================== *)

Section CoreAlgebra.
Import Py Hebrew Backend Spec.

Lemma sum_app (l1 l2 : list Z) : Py.sum (l1 ++ l2) = (Py.sum l1 + Py.sum l2)%Z.
Proof.
  unfold Py.sum at 1. rewrite fold_left_app, sum_from.
  fold (Py.sum l1). lia.
Qed.

Lemma sum_Permutation (l l' : list Z) :
  Permutation l l' -> Py.sum l = Py.sum l'.
Proof.
  induction 1 as [|x l l' _ IH|x y l|l l' l'' _ IH1 _ IH2].
  - reflexivity.
  - rewrite !sum_cons. lia.
  - rewrite !sum_cons. lia.
  - congruence.
Qed.

(** Normalizing twice is normalizing once, in the backend and in the
    seeding script alike. *)
Theorem normalize_idempotent (s : str) :
  _normalize (_normalize s) = _normalize s /\
  SeedDb.normalize (SeedDb.normalize s) = SeedDb.normalize s.
Proof.
  split; [apply _normalize_idem|].
  rewrite !normalize_filter, filter_filter. apply List.filter_ext.
  intros c. apply andb_diag.
Qed.

(** Normalization and scoring go through concatenation: the normalized form
    of [s ++ t] is the two normalized forms joined, and its value is the sum
    of the two values. *)
Theorem gematria_of_concatenation (s t : str) :
  _normalize (s ++ t) = _normalize s ++ _normalize t /\
  get_gematria (s ++ t) = (get_gematria s + get_gematria t)%Z.
Proof.
  split.
  - rewrite !_normalize_filter. apply List.filter_app.
  - rewrite !get_gematria_filter, List.filter_app, map_app. apply sum_app.
Qed.

(** The value lies between the number of letters kept and 400 times that
    number; so it is never negative, and it is 0 exactly when the string
    holds no Hebrew letter. *)
Theorem gematria_bounds (s : str) :
  (Z.of_nat (length (_normalize s)) <= get_gematria s
   <= 400 * Z.of_nat (length (_normalize s)))%Z /\
  (get_gematria s = 0%Z <-> _normalize s = []).
Proof.
  pose proof (letters_sum_range (_normalize s) (_normalize_Forall s)) as H.
  fold (get_gematria s) in H. split; [exact H|].
  destruct (_normalize s) as [|c n]; cbn [length] in H.
  - split; [reflexivity | lia].
  - split; [lia | discriminate].
Qed.

(** Rearranging the characters of a string does not change its value. *)
Theorem gematria_of_permutation (s t : str) :
  Permutation s t -> get_gematria s = get_gematria t.
Proof.
  intros H. rewrite !get_gematria_filter.
  apply sum_Permutation, Permutation_map, filter_Permutation_bool, H.
Qed.

Lemma gematria_of_permutation_witness :
  get_gematria bereshit = get_gematria [resh; bet; alef; shin; yod; tav].
Proof.
  apply (gematria_of_permutation bereshit [resh; bet; alef; shin; yod; tav]).
  apply perm_swap.
Defined.

(** The breakdown lists exactly the letters of the normalized form, in
    order, each with its table value, a value between 1 and 400. *)
Theorem breakdown_letters (s : str) :
  exists ps,
    gematria_breakdown s = inr ps /\
    map fst ps = _normalize s /\
    Forall (fun p => GEMATRIA_MAP !! fst p = Some (snd p) /\
                     (1 <= snd p <= 400)%Z) ps.
Proof.
  eexists. split; [|split].
  - unfold gematria_breakdown. apply breakdown_pairs_letters, _normalize_Forall.
  - rewrite map_map. apply map_id.
  - apply List.Forall_forall. intros p Hp.
    apply in_map_iff in Hp as (c & <- & Hc). cbn [fst snd].
    apply _normalize_letters in Hc.
    pose proof (letter_value_range c Hc) as Hr.
    destruct (letter_is_key c Hc) as (v & Hv & _).
    unfold get in *. rewrite Hv in *. cbn in *. split; [reflexivity | lia].
Qed.

Lemma base_form_letter c : is_letter (base_form c) = is_letter c.
Proof.
  unfold base_form.
  repeat match goal with
         | |- context [c =? ?k] => destruct (N.eqb_spec c k); [now subst|]
         end.
  reflexivity.
Qed.

Lemma base_form_values :
  forallb (fun c => (get GEMATRIA_MAP (base_form c) 0 =? get GEMATRIA_MAP c 0)%Z)
          letters = true.
Proof. vm_compute. reflexivity. Qed.

Lemma base_form_value c :
  is_letter c = true ->
  get GEMATRIA_MAP (base_form c) 0%Z = get GEMATRIA_MAP c 0%Z.
Proof.
  intros H%is_letter_letters.
  pose proof (proj1 (forallb_forall _ _) base_form_values c H) as Hc.
  cbv beta in Hc. now apply Z.eqb_eq.
Qed.

(** Final forms score as their base letters: writing every final form of a
    string as its base letter changes neither which characters are kept nor
    the value. *)
Theorem final_forms_score_as_base (s : str) :
  _normalize (map base_form s) = map base_form (_normalize s) /\
  get_gematria (map base_form s) = get_gematria s.
Proof.
  assert (H : _normalize (map base_form s) = map base_form (_normalize s)).
  { rewrite !_normalize_filter.
    induction s as [|c s IH]; [reflexivity|]. cbn [map List.filter].
    rewrite base_form_letter. destruct (is_letter c); cbn [map]; now rewrite IH. }
  split; [exact H|].
  unfold get_gematria. rewrite H, map_map. f_equal.
  apply map_ext_in. intros c Hc. apply base_form_value.
  now apply _normalize_letters in Hc.
Qed.

End CoreAlgebra.

(* ===================================================================== *)
(** ** Further properties of the loader and of the store                   *)
(* ===================================================================== *)

Section StoreHistory.
Import Py Hebrew Backend Spec.

(** The table has no key outside the letters. *)
Lemma not_letter_no_key c : is_letter c = false -> GEMATRIA_MAP !! c = None.
Proof.
  intros Hc. destruct (GEMATRIA_MAP !! c) as [v|] eqn:E; [|reflexivity].
  unfold GEMATRIA_MAP in E. apply elem_of_list_to_map_2, list_elem_of_In in E.
  cbn [In] in E.
  repeat (destruct E as [E | E];
          [injection E as <- _; vm_compute in Hc; discriminate|]).
  destruct E.
Qed.

Lemma filter_all {A} (f : A -> bool) (l : list A) :
  Forall (fun x => f x = true) l -> List.filter f l = l.
Proof.
  induction 1 as [|x l Hx _ IH]; [reflexivity|].
  cbn. now rewrite Hx, IH.
Qed.

(** How the seeding script's sum ends on any word, from any accumulator. *)
Lemma sum_values_outcome (word : str) (acc : Z) :
  match SeedDb.sum_values acc word with
  | inr v =>
      Forall (fun c => is_letter c = true) word /\
      v = (acc + Py.sum (map (fun ch => get GEMATRIA_MAP ch 0%Z) word))%Z
  | inl e =>
      exists pre c post,
        word = pre ++ c :: post /\
        Forall (fun c => is_letter c = true) pre /\
        is_letter c = false /\ e = KeyError c
  end.
Proof.
  revert acc. induction word as [|c word IH]; intros acc.
  - cbn. split; [constructor|]. unfold Py.sum. cbn. lia.
  - cbn [SeedDb.sum_values]. unfold getitem. rewrite gematria_values_eq.
    destruct (is_letter c) eqn:Hc.
    + destruct (letter_is_key c Hc) as (v & Hv & _). rewrite Hv. cbn [ret bind].
      specialize (IH (acc + v)%Z).
      destruct (SeedDb.sum_values (acc + v) word) as [e | r].
      * destruct IH as (pre & d & post & -> & Hpre & Hd & ->).
        exists (c :: pre), d, post. repeat split; try assumption.
        now constructor.
      * destruct IH as [Hall ->]. split; [now constructor|].
        cbn [map]. rewrite sum_cons. unfold get at 2. rewrite Hv. cbn. lia.
    + rewrite (not_letter_no_key c Hc). cbn [raise bind].
      exists [], c, word. repeat split; [constructor | assumption].
Qed.

(** [gematria_value] of the seeding script returns exactly on the words made
    of the 27 letters only, with the backend's value; on any other word it
    raises [KeyError] for the first character that is not a letter. *)
Theorem gematria_value_outcome (word : str) :
  match SeedDb.gematria_value word with
  | inr v =>
      Forall (fun c => is_letter c = true) word /\ v = get_gematria word
  | inl e =>
      exists pre c post,
        word = pre ++ c :: post /\
        Forall (fun c => is_letter c = true) pre /\
        is_letter c = false /\ e = KeyError c
  end.
Proof.
  unfold SeedDb.gematria_value.
  pose proof (sum_values_outcome word 0%Z) as H.
  destruct (SeedDb.sum_values 0 word) as [e | v]; [exact H|].
  destruct H as [Hall ->]. split; [assumption|].
  rewrite get_gematria_filter, (filter_all _ _ Hall). lia.
Qed.

Lemma isspace_not_letter c : is_letter c = true -> isspace c = false.
Proof.
  unfold is_letter, isspace. intros [H1 H2]%andb_prop.
  apply N.leb_le in H1, H2.
  repeat match goal with
         | |- context [c =? ?k] =>
             replace (c =? k) with false by (symmetry; apply N.eqb_neq; lia)
         | |- context [c <=? ?k] =>
             replace (c <=? k) with false by (symmetry; apply N.leb_gt; lia)
         | |- context [?k <=? c] =>
             replace (k <=? c) with false by (symmetry; apply N.leb_gt; lia)
         end.
  rewrite !andb_false_r. reflexivity.
Qed.

Lemma filter_lstrip (s : str) :
  List.filter is_letter (lstrip s) = List.filter is_letter s.
Proof.
  induction s as [|c s IH]; [reflexivity|]. cbn [lstrip].
  destruct (isspace c) eqn:E; [|reflexivity].
  cbn [List.filter]. destruct (is_letter c) eqn:Hc; [|exact IH].
  apply isspace_not_letter in Hc. congruence.
Qed.

(** Stripping a line removes no letter. *)
Lemma filter_strip (s : str) :
  List.filter is_letter (strip s) = List.filter is_letter s.
Proof.
  unfold strip, rstrip.
  rewrite filter_rev, filter_lstrip, filter_rev, rev_involutive.
  apply filter_lstrip.
Qed.

Lemma stored_row_of_its_text utcnow (db : Db.database) (i : nat) (line : str) :
  row_of_its_text (stored_row utcnow db i line).
Proof.
  unfold row_of_its_text, stored_row. cbn [Db.normalized Db.gematria Db.text].
  rewrite normalize_filter, _normalize_filter, !get_gematria_filter, filter_strip.
  split; reflexivity.
Qed.

Lemma flush_id_seq utcnow (pending : list SeedDb.GematriaWords) :
  forall (i : nat) (db : Db.database),
    Db.id_seq db <= Db.id_seq (fst (SeedDb.flush utcnow i pending db)).
Proof.
  induction pending as [|w pending IH]; intros i db; cbn [SeedDb.flush fst].
  - lia.
  - match goal with
    | |- context [Db.insert ?v db] =>
        destruct (insert_cases v db) as [[_ ->] | [[_ ->] | [[_ ->] | [_ ->]]]]
    end; cbn [fst Db.id_seq]; try lia.
    match goal with
    | |- context [SeedDb.flush utcnow (S i) pending ?d] =>
        specialize (IH (S i) d); cbn [Db.id_seq] in IH
    end. lia.
Qed.

Lemma main_id_seq utcnow (file : list str) (db : Db.database) :
  Db.id_seq db <= Db.id_seq (fst (SeedDb.main utcnow file db)).
Proof.
  unfold SeedDb.main. rewrite add_all_added. cbn [app].
  pose proof (flush_id_seq utcnow (map added file) 0 db) as H.
  destruct (SeedDb.flush utcnow 0 (map added file) db) as [db' [e|]];
    cbn in *; exact H.
Qed.

Lemma map_id_stored utcnow (db : Db.database) (file : list str) :
  map Db.id (imap (stored_row utcnow db) file) =
    map (fun i => Db.id_seq db + N.of_nat i) (seq 0 (length file)).
Proof.
  change (map Db.id (imap (stored_row utcnow db) file))
    with (Db.id <$> imap (stored_row utcnow db) file).
  rewrite fmap_imap.
  etransitivity;
    [|exact (imap_seq_0 file (fun i => Db.id_seq db + N.of_nat i))].
  apply imap_ext. reflexivity.
Qed.

(** What one operation does to the store as a whole. *)
Lemma step_effect (db db' : Db.database) :
  step db db' ->
  Db.id_seq db <= Db.id_seq db' /\
  (db' = db \/
   Db.gematria_words db' = Db.gematria_words db \/
   exists utcnow file,
     keys_fresh (map SeedDb.normalize file) db /\
     Db.gematria_words db' =
       Db.gematria_words db ++ imap (stored_row utcnow db) file /\
     Db.id_seq db' = Db.id_seq db + N.of_nat (length file)).
Proof.
  intros [utcnow file d | tiebreak g limit d | word d].
  - split; [apply main_id_seq|].
    destruct (main_outcome utcnow file d)
      as [((Hk & _) & ->) | (_ & d' & e & -> & Hrows & _)]; cbn [fst].
    + right. right. exists utcnow, file.
      split; [exact Hk | split; reflexivity].
    + right. now left.
  - unfold Api.get_top_words.
    destruct (Api.TopWordsRequest.validate g limit); cbn; split; (lia || now left).
  - unfold Api.calculate_gematria.
    destruct (Api.WordRequest.validate word); cbn; split; (lia || now left).
Qed.

Lemma step_rows (P : Db.row -> Prop) (db db' : Db.database) :
  (forall utcnow d i line, P (stored_row utcnow d i line)) ->
  step db db' ->
  Forall P (Db.gematria_words db) -> Forall P (Db.gematria_words db').
Proof.
  intros HP Hstep Hall.
  destruct (step_effect db db' Hstep)
    as (_ & [-> | [-> | (utcnow & file & _ & -> & _)]]); try assumption.
  apply Forall_app_2; [assumption|].
  apply List.Forall_forall. intros r Hr.
  apply list_elem_of_In, elem_of_lookup_imap in Hr as (i & line & -> & _).
  apply HP.
Qed.

(** What holds of every row the loader stores holds of every row of every
    reachable state. *)
Lemma reachable_rows (P : Db.row -> Prop) (db : Db.database) :
  (forall utcnow d i line, P (stored_row utcnow d i line)) ->
  reachable db -> Forall P (Db.gematria_words db).
Proof.
  intros HP. induction 1 as [|db db' _ IH Hstep]; [constructor|].
  now apply (step_rows P db db').
Qed.

(** In every state the store can reach, each row is described by its own
    [text]: [normalized] is the backend's normalization of [text], and
    [gematria] is the backend's value of [text]. *)
Theorem stored_rows_follow_text (db : Db.database) :
  reachable db -> Forall row_of_its_text (Db.gematria_words db).
Proof.
  intros Hreach. apply reachable_rows; [|exact Hreach].
  intros. apply stored_row_of_its_text.
Qed.

Lemma stored_rows_follow_text_witness :
  Forall row_of_its_text
    (Db.gematria_words (fst (SeedDb.main tick words_file Db.empty))).
Proof.
  apply (stored_rows_follow_text (fst (SeedDb.main tick words_file Db.empty))).
  eapply reachable_step; [apply reachable_empty | apply step_ingest].
Defined.

(** No operation removes or rewrites a stored row: after any operation the
    rows of before are still there, in the same order, followed by the new
    ones; and the key sequence never goes back. *)
Theorem store_is_append_only (db db' : Db.database) :
  step db db' ->
  (exists new, Db.gematria_words db' = Db.gematria_words db ++ new) /\
  Db.id_seq db <= Db.id_seq db'.
Proof.
  intros Hstep.
  destruct (step_effect db db' Hstep)
    as (Hseq & [-> | [Hrows | (utcnow & file & _ & Hrows & _)]]).
  - split; [exists []; now rewrite app_nil_r | lia].
  - split; [exists []; now rewrite app_nil_r | assumption].
  - split; [eauto | assumption].
Qed.

Lemma store_is_append_only_witness :
  (exists new,
     Db.gematria_words (fst (SeedDb.main tick blank_file three_rows)) =
       Db.gematria_words three_rows ++ new) /\
  Db.id_seq three_rows <=
    Db.id_seq (fst (SeedDb.main tick blank_file three_rows)).
Proof.
  apply (store_is_append_only three_rows
           (fst (SeedDb.main tick blank_file three_rows))).
  apply step_ingest.
Defined.

(** The primary key stays a key: in every state the store can reach no [id]
    occurs twice, and every [id] is below the sequence's next value. *)
Theorem ids_stay_fresh (db : Db.database) : reachable db -> ids_fresh db.
Proof.
  induction 1 as [|db db' _ [Hnd Hlt] Hstep]; [split; constructor|].
  destruct (step_effect db db' Hstep)
    as (Hseq & [-> | [Hrows | (utcnow & file & _ & Hrows & Hnext)]]).
  - now split.
  - unfold ids_fresh. rewrite Hrows. split; [assumption|].
    eapply List.Forall_impl; [|exact Hlt]. cbn. intros r Hr. lia.
  - unfold ids_fresh. rewrite Hrows, map_app, map_id_stored. split.
    + apply List.NoDup_app; [assumption | |].
      * apply Finite.Injective_map_NoDup; [|apply seq_NoDup].
        intros i j Hij. lia.
      * intros k Hk Hk'. apply in_map_iff in Hk as (r & <- & Hr).
        apply in_map_iff in Hk' as (i & Hi & _).
        pose proof (proj1 (List.Forall_forall _ _) Hlt r Hr). cbn in *. lia.
    + apply Forall_app_2.
      * eapply List.Forall_impl; [|exact Hlt]. cbn. intros r Hr. lia.
      * apply List.Forall_forall. intros r Hr.
        apply list_elem_of_In, elem_of_lookup_imap in Hr as (i & line & -> & Hi).
        apply lookup_lt_Some in Hi. unfold stored_row. cbn [Db.id]. lia.
Qed.

Lemma ids_stay_fresh_witness :
  ids_fresh (fst (SeedDb.main tick blank_file
                    (fst (SeedDb.main tick words_file Db.empty)))).
Proof.
  apply ids_stay_fresh.
  eapply reachable_step; [|apply step_ingest].
  eapply reachable_step; [apply reachable_empty | apply step_ingest].
Defined.





End StoreHistory.

(* ===================================================================== *)
(** ** Further properties of the API handlers (api.py)                     *)
(* ===================================================================== *)

Section Routes.
Import Py Hebrew Backend Spec Api.

(** The two ways the validation of a word can end. *)
Lemma validate_word_outcome (word : str) :
  (_normalize word = [] /\ exists e, WordRequest.validate word = inl e) \/
  (_normalize word <> [] /\
   WordRequest.validate word = inr (WordRequest.Make word)).
Proof.
  unfold WordRequest.validate, WordRequest.validate_hebrew.
  destruct (_normalize word) as [|c n] eqn:E.
  - left. split; [reflexivity|]. destruct (length word <? 1)%nat; eauto.
  - right. split; [discriminate|].
    destruct word as [|d word]; [discriminate|]. reflexivity.
Qed.

Lemma validate_top_words_valid (g l : Z) (limit : option Z) :
  (0 <= g)%Z -> default 10%Z limit = l -> (1 <= l <= 100)%Z ->
  TopWordsRequest.validate g limit = inr (TopWordsRequest.Make g l).
Proof.
  intros Hg <- Hl. unfold TopWordsRequest.validate.
  destruct (Z.ltb_spec g 0); [lia|].
  destruct (Z.ltb_spec (default 10%Z limit) 1); [lia|].
  destruct (Z.ltb_spec 100 (default 10%Z limit)); [lia|]. reflexivity.
Qed.

Lemma In_take {A} (n : nat) (l : list A) (x : A) : In x (take n l) -> In x l.
Proof.
  intros H. rewrite <- (take_drop n l). apply in_or_app. now left.
Qed.

Lemma get_gematria_nonneg (s : str) : (0 <= get_gematria s)%Z.
Proof.
  pose proof (letters_sum_range (_normalize s) (_normalize_Forall s)) as H.
  fold (get_gematria s) in H. lia.
Qed.

(** On a valid request the lookup lists [min limit count] records; each of
    them has the requested value and is the view of a stored row. *)
Theorem lookup_lists_matching_rows tiebreak (g : Z) (limit : option Z)
  (request : TopWordsRequest.t) (db : Db.database) :
  TopWordsRequest.validate g limit = inr request ->
  exists resp,
    get_top_words tiebreak g limit db = (HTTP_200 resp, db) /\
    TopWordsResponse.gematria resp = g /\
    length (TopWordsResponse.words resp) =
      Nat.min (Z.to_nat (TopWordsRequest.limit request))
              (TopWordsResponse.count resp) /\
    Forall (fun w => GematriaResponse.gematria w = g /\
                     exists r, In r (Db.gematria_words db) /\ w = to_response r)
           (TopWordsResponse.words resp).
Proof.
  intros Hv. destruct (validate_top_words_ok _ _ _ Hv) as (Hg & _).
  unfold get_top_words. rewrite Hv. eexists. split; [reflexivity|].
  unfold get_top_words_body.
  cbn [TopWordsResponse.gematria TopWordsResponse.count TopWordsResponse.words].
  rewrite Hg. split; [reflexivity|]. split.
  - rewrite length_map, length_take. f_equal.
    apply Permutation_length, order_by_created_at_desc_sorted.
  - apply List.Forall_forall. intros w Hw.
    apply in_map_iff in Hw as (r & <- & Hr). apply In_take in Hr.
    apply (Permutation_in _ (proj1 (order_by_created_at_desc_sorted _ _))) in Hr.
    apply filter_In in Hr as [Hr Hgr]. apply Z.eqb_eq in Hgr.
    split; [exact Hgr | eauto].
Qed.

Lemma lookup_lists_matching_rows_witness :
  exists resp,
    get_top_words Db.id 913 None three_rows = (HTTP_200 resp, three_rows) /\
    TopWordsResponse.gematria resp = 913%Z /\
    length (TopWordsResponse.words resp) =
      Nat.min (Z.to_nat 10) (TopWordsResponse.count resp) /\
    Forall (fun w => GematriaResponse.gematria w = 913%Z /\
                     exists r, In r (Db.gematria_words three_rows) /\
                               w = to_response r)
           (TopWordsResponse.words resp).
Proof.
  apply (lookup_lists_matching_rows Db.id 913 None
           (TopWordsRequest.Make 913 10) three_rows).
  reflexivity.
Defined.

Lemma NoDup_map_injective {A B} (f : A -> B) (l : list A) (x y : A) :
  List.NoDup (map f l) -> In x l -> In y l -> f x = f y -> x = y.
Proof.
  induction l as [|a l IH]; intros Hnd Hx Hy E; [destruct Hx|].
  cbn [map] in Hnd. apply List.NoDup_cons_iff in Hnd as [Ha Hnd].
  destruct Hx as [-> | Hx], Hy as [-> | Hy]; try reflexivity.
  - destruct Ha. rewrite E. now apply in_map.
  - destruct Ha. rewrite <- E. now apply in_map.
  - now apply IH.
Qed.

(** When no two rows share their [created_at], the order of the rows is
    the same whatever the database does with ties. *)
Lemma order_by_created_at_desc_unique t1 t2 (rows : list Db.row) :
  List.NoDup (map Db.created_at rows) ->
  Db.order_by_created_at_desc t1 rows = Db.order_by_created_at_desc t2 rows.
Proof.
  intros Hnd.
  destruct (order_by_created_at_desc_sorted t1 rows) as [Hp1 Hs1].
  destruct (order_by_created_at_desc_sorted t2 rows) as [Hp2 Hs2].
  apply (StronglySorted_unique_strong Db.created_at_desc);
    [|assumption | assumption | now rewrite Hp1, Hp2].
  intros x y Hx Hy Hxy Hyx. unfold Db.created_at_desc in *.
  apply (NoDup_map_injective Db.created_at rows); [assumption | | | lia].
  - apply list_elem_of_In in Hx. now apply (Permutation_in _ Hp1).
  - apply list_elem_of_In in Hy. now apply (Permutation_in _ Hp2).
Qed.

(** Paging: when the matching rows have pairwise distinct [created_at], a
    lookup with a smaller limit lists a prefix of what a lookup with a
    larger limit lists, with the same count, although the two lookups are
    separate queries that may each order ties in their own way. *)
Theorem lookup_limit_prefix t1 t2 (g n m : Z) (db : Db.database) :
  (0 <= g)%Z -> (1 <= n <= m)%Z -> (m <= 100)%Z ->
  List.NoDup (map Db.created_at (filter_gematria g (Db.gematria_words db))) ->
  exists rn rm,
    get_top_words t1 g (Some n) db = (HTTP_200 rn, db) /\
    get_top_words t2 g (Some m) db = (HTTP_200 rm, db) /\
    TopWordsResponse.count rn = TopWordsResponse.count rm /\
    TopWordsResponse.words rn =
      take (Z.to_nat n) (TopWordsResponse.words rm).
Proof.
  intros Hg Hn Hm Hnd. unfold get_top_words.
  rewrite (validate_top_words_valid g n (Some n)) by (trivial || lia).
  rewrite (validate_top_words_valid g m (Some m)) by (trivial || lia).
  do 2 eexists. split; [reflexivity|]. split; [reflexivity|].
  unfold get_top_words_body.
  cbn [TopWordsResponse.count TopWordsResponse.words TopWordsRequest.limit
       TopWordsRequest.gematria].
  split; [reflexivity|].
  rewrite (order_by_created_at_desc_unique t1 t2 _ Hnd).
  rewrite firstn_map, firstn_firstn. do 2 f_equal. lia.
Qed.

Lemma lookup_limit_prefix_witness :
  exists rn rm,
    get_top_words Db.id 913 (Some 1%Z) three_rows = (HTTP_200 rn, three_rows) /\
    get_top_words (fun r => 10 - Db.id r) 913 (Some 2%Z) three_rows =
      (HTTP_200 rm, three_rows) /\
    TopWordsResponse.count rn = TopWordsResponse.count rm /\
    TopWordsResponse.words rn = take (Z.to_nat 1) (TopWordsResponse.words rm).
Proof.
  apply (lookup_limit_prefix Db.id (fun r => 10 - Db.id r) 913 1 2 three_rows);
    try lia.
  repeat constructor; cbn; intuition discriminate.
Defined.



(** Every word the calculation accepts has a value of at least 1, and its
    normalized form is a fixed point: sent back, it is accepted, returned
    unchanged as both the word and the normalized form, with the same
    value. *)
Theorem calculate_on_its_normalized (word : str) (db : Db.database)
  (body : GematriaResponse.t) :
  calculate_gematria word db = (HTTP_200 body, db) ->
  (1 <= GematriaResponse.gematria body)%Z /\
  calculate_gematria (GematriaResponse.normalized body) db =
    (HTTP_200 (GematriaResponse.Make (GematriaResponse.normalized body)
                 (GematriaResponse.normalized body)
                 (GematriaResponse.gematria body)), db).
Proof.
  unfold calculate_gematria, calculate_gematria_body.
  destruct (validate_word_outcome word) as [(_ & e & ->) | (Hn & ->)];
    [discriminate|].
  intros [= <-]. cbn [WordRequest.word GematriaResponse.normalized
                      GematriaResponse.gematria].
  pose proof (letters_sum_range (_normalize word) (_normalize_Forall word)) as H.
  fold (get_gematria word) in H. split.
  - destruct (_normalize word); [contradiction | cbn [length] in H; lia].
  - destruct (validate_word_outcome (_normalize word))
      as [(Hn' & _) | (_ & ->)].
    + rewrite _normalize_idem in Hn'. contradiction.
    + cbn [WordRequest.word]. rewrite _normalize_idem.
      unfold get_gematria at 1. now rewrite _normalize_idem.
Qed.

Lemma calculate_on_its_normalized_witness :
  (1 <= 913)%Z /\
  calculate_gematria bereshit Db.empty =
    (HTTP_200 (GematriaResponse.Make bereshit bereshit 913), Db.empty).
Proof.
  apply (calculate_on_its_normalized bereshit_pointed Db.empty
           (GematriaResponse.Make bereshit_pointed bereshit 913)).
  reflexivity.
Defined.

(** What the lookup returns agrees with what the calculation computes: in
    every reachable state, a listed record whose normalized form is not
    empty is exactly the answer of the calculation to that record's word;
    a listed record with empty normalized form is one whose word the
    calculation refuses. *)
Theorem lookup_agrees_with_calculate tiebreak (db : Db.database) (g : Z)
  (limit : option Z) (resp : TopWordsResponse.t) (w : GematriaResponse.t) :
  reachable db ->
  get_top_words tiebreak g limit db = (HTTP_200 resp, db) ->
  In w (TopWordsResponse.words resp) ->
  (GematriaResponse.normalized w <> [] /\
   calculate_gematria (GematriaResponse.word w) db = (HTTP_200 w, db)) \/
  (GematriaResponse.normalized w = [] /\
   exists e, calculate_gematria (GematriaResponse.word w) db = (HTTP_422 e, db)).
Proof.
  intros Hreach Hlook Hw.
  pose proof (reachable_rows row_of_its_text db
                (fun u d i l => stored_row_of_its_text u d i l) Hreach) as Hrows.
  unfold get_top_words in Hlook.
  destruct (TopWordsRequest.validate g limit) as [e | request]; [discriminate|].
  injection Hlook as <-. unfold get_top_words_body in Hw.
  cbn [TopWordsResponse.words] in Hw.
  apply in_map_iff in Hw as (r & <- & Hr). apply In_take in Hr.
  apply (Permutation_in _ (proj1 (order_by_created_at_desc_sorted _ _))) in Hr.
  apply filter_In in Hr as [Hr _].
  destruct (proj1 (List.Forall_forall _ _) Hrows r Hr) as [Hnorm Hgem].
  unfold to_response.
  cbn [GematriaResponse.normalized GematriaResponse.word].
  unfold calculate_gematria, calculate_gematria_body.
  destruct (validate_word_outcome (Db.text r)) as [(Hn & e & ->) | (Hn & ->)].
  - right. split; [congruence | eauto].
  - left. split; [congruence|]. cbn [WordRequest.word].
    now rewrite <- Hnorm, <- Hgem.
Qed.

Lemma lookup_agrees_with_calculate_witness :
  (GematriaResponse.normalized
     (GematriaResponse.Make bereshit_pointed bereshit 913) <> [] /\
   calculate_gematria bereshit_pointed
     (fst (SeedDb.main tick words_file Db.empty)) =
     (HTTP_200 (GematriaResponse.Make bereshit_pointed bereshit 913),
      fst (SeedDb.main tick words_file Db.empty))) \/
  (GematriaResponse.normalized
     (GematriaResponse.Make bereshit_pointed bereshit 913) = [] /\
   exists e,
     calculate_gematria bereshit_pointed
       (fst (SeedDb.main tick words_file Db.empty)) =
       (HTTP_422 e, fst (SeedDb.main tick words_file Db.empty))).
Proof.
  apply (lookup_agrees_with_calculate Db.id
           (fst (SeedDb.main tick words_file Db.empty)) 913 None
           (TopWordsResponse.Make 913 1
              [GematriaResponse.Make bereshit_pointed bereshit 913])
           (GematriaResponse.Make bereshit_pointed bereshit 913)).
  - eapply reachable_step; [apply reachable_empty | apply step_ingest].
  - vm_compute. reflexivity.
  - now left.
Defined.

(** Loading then looking up: once a run has committed, the lookup of the
    value of any of its lines, under any valid limit, counts at least one
    row and lists at least one record. *)
Theorem loaded_line_is_found utcnow tiebreak (file : list str)
  (db db' : Db.database) (line : str) (limit : option Z) :
  SeedDb.main utcnow file db = (db', None) ->
  In line file ->
  (1 <= default 10%Z limit <= 100)%Z ->
  exists resp,
    get_top_words tiebreak (get_gematria line) limit db' =
      (HTTP_200 resp, db') /\
    (1 <= TopWordsResponse.count resp)%nat /\
    TopWordsResponse.words resp <> [].
Proof.
  intros Hrun Hline Hlimit.
  destruct (main_outcome utcnow file db)
    as [(_ & H1) | (_ & d & e & H1 & _)]; [|congruence].
  rewrite H1 in Hrun. injection Hrun as <-.
  unfold get_top_words.
  rewrite (validate_top_words_valid _ (default 10%Z limit) limit)
    by (trivial || apply get_gematria_nonneg).
  eexists. split; [reflexivity|].
  unfold get_top_words_body.
  cbn [TopWordsResponse.count TopWordsResponse.words TopWordsRequest.limit
       TopWordsRequest.gematria Db.gematria_words].
  set (matching := filter_gematria (get_gematria line) _).
  assert (Hm : (1 <= length matching)%nat).
  { apply list_elem_of_In, list_elem_of_lookup in Hline as [i Hi].
    assert (Hin : In (stored_row utcnow db i line) matching).
    { apply filter_In. split.
      - apply in_or_app. right. apply list_elem_of_In.
        apply elem_of_lookup_imap. eauto.
      - apply Z.eqb_eq. reflexivity. }
    destruct matching; [destruct Hin | cbn; lia]. }
  split; [exact Hm|].
  intros Hnil. apply (f_equal (@length _)) in Hnil.
  rewrite length_map, length_take in Hnil.
  rewrite (Permutation_length
             (proj1 (order_by_created_at_desc_sorted tiebreak matching)))
    in Hnil.
  cbn in Hnil. lia.
Qed.

Lemma loaded_line_is_found_witness :
  exists resp,
    get_top_words Db.id (get_gematria [yod; he; vav; he; 0x0A]) None
      (fst (SeedDb.main tick words_file Db.empty)) =
      (HTTP_200 resp, fst (SeedDb.main tick words_file Db.empty)) /\
    (1 <= TopWordsResponse.count resp)%nat /\
    TopWordsResponse.words resp <> [].
Proof.
  apply (loaded_line_is_found tick Db.id words_file Db.empty
           (fst (SeedDb.main tick words_file Db.empty))
           [yod; he; vav; he; 0x0A] None).
  - vm_compute. reflexivity.
  - right. now left.
  - cbn. lia.
Defined.

End Routes.

(* ===================================================================== *)
(** ** Properties of the configuration (api.py)                            *)
(* ===================================================================== *)

Section Configuration.
Import Py Spec Urllib ApiConfig.

Lemma hexdigits_plain :
  forallb (fun n => url_plain (hexdigit n)) (map N.of_nat (seq 0 16)) = true.
Proof. vm_compute. reflexivity. Qed.

Lemma hexdigit_plain n : n < 16 -> url_plain (hexdigit n) = true.
Proof.
  intros Hn.
  apply (proj1 (forallb_forall _ _) hexdigits_plain n).
  apply in_map_iff. exists (N.to_nat n). split; [apply N2Nat.id|].
  apply in_seq. lia.
Qed.

Lemma percent_plain b :
  b < 256 -> Forall (fun c => url_plain c = true) (percent b).
Proof.
  intros Hb. unfold percent. repeat constructor.
  - apply hexdigit_plain, N.Div0.div_lt_upper_bound. lia.
  - apply hexdigit_plain, N.mod_lt. lia.
Qed.

Lemma url_plain_not_reserved c :
  url_plain c = true -> c <> 0x3A /\ c <> 0x40 /\ c <> 0x2F.
Proof.
  intros H. repeat split; intros ->; vm_compute in H; discriminate.
Qed.

(** The encoding of one code point: bytes, unless it is a surrogate. *)
Lemma utf8_char_outcome c :
  code_point c ->
  match utf8_char c with
  | inr bs => is_surrogate c = false /\ Forall (fun b => b < 256) bs
  | inl (MkUnicodeEncodeError d) => d = c /\ is_surrogate c = true
  end.
Proof.
  unfold code_point, utf8_char, is_surrogate. intros Hc.
  assert (Hm : forall a, a mod 64 < 64) by (intros; apply N.mod_lt; lia).
  destruct (N.ltb_spec c 0x80).
  { split; [|repeat constructor; lia].
    destruct (N.leb_spec 0xD800 c); [lia | reflexivity]. }
  destruct (N.ltb_spec c 0x800).
  { split; [destruct (N.leb_spec 0xD800 c); [lia | reflexivity]|].
    assert (c / 64 < 32) by (apply N.Div0.div_lt_upper_bound; lia).
    pose proof (Hm c). repeat constructor; lia. }
  destruct (N.ltb_spec c 0x10000).
  { destruct (N.leb_spec 0xD800 c), (N.leb_spec c 0xDFFF); cbn [andb];
      try (split; reflexivity);
      (split; [reflexivity|];
       assert (c / 4096 < 16) by (apply N.Div0.div_lt_upper_bound; lia);
       pose proof (Hm c); pose proof (Hm (c / 64));
       repeat constructor; lia). }
  split.
  { destruct (N.leb_spec 0xD800 c), (N.leb_spec c 0xDFFF); cbn [andb];
      (reflexivity || lia). }
  assert (c / 262144 < 8) by (apply N.Div0.div_lt_upper_bound; lia).
  pose proof (Hm c); pose proof (Hm (c / 64)); pose proof (Hm (c / 4096)).
  repeat constructor; lia.
Qed.

Lemma utf8_outcome (s : str) :
  Forall code_point s ->
  match utf8 s with
  | inr bs =>
      Forall (fun c => is_surrogate c = false) s /\
      Forall (fun b => b < 256) bs
  | inl (MkUnicodeEncodeError c) => In c s /\ is_surrogate c = true
  end.
Proof.
  induction 1 as [|c s Hc _ IH]; cbn [utf8]; [split; constructor|].
  pose proof (utf8_char_outcome c Hc) as H.
  destruct (utf8_char c) as [[d] | bs].
  - destruct H as [-> H]. split; [now left | exact H].
  - destruct H as [H1 H2]. destruct (utf8 s) as [[d] | bs'].
    + destruct IH as [IH1 IH2]. split; [now right | exact IH2].
    + destruct IH as [IH1 IH2]. split; [now constructor|].
      now apply Forall_app_2.
Qed.

Lemma quote_from_bytes_plain (space_safe : bool) (bs : list N) :
  Forall (fun b => b < 256) bs ->
  Forall (fun c => url_plain c = true \/ (space_safe = true /\ c = 0x20))
         (quote_from_bytes space_safe bs).
Proof.
  unfold quote_from_bytes.
  induction 1 as [|b bs Hb _ IH]; cbn [flat_map]; [constructor|].
  apply Forall_app_2; [|exact IH].
  destruct (always_safe b) eqn:Hs; cbn [orb].
  - constructor; [|constructor]. left. unfold url_plain. now rewrite Hs.
  - destruct space_safe; cbn [andb].
    + destruct (N.eqb_spec b 0x20) as [-> | _].
      * constructor; [|constructor]. right. now split.
      * eapply List.Forall_impl; [|apply percent_plain, Hb]. cbn. tauto.
    + eapply List.Forall_impl; [|apply percent_plain, Hb]. cbn. tauto.
Qed.

Lemma quote_outcome (space_safe : bool) (s : str) :
  Forall code_point s ->
  match quote space_safe s with
  | inr q =>
      Forall (fun c => is_surrogate c = false) s /\
      Forall (fun c => url_plain c = true \/ (space_safe = true /\ c = 0x20)) q
  | inl (MkUnicodeEncodeError c) => In c s /\ is_surrogate c = true
  end.
Proof.
  intros Hs. unfold quote. destruct s as [|c s]; [split; constructor|].
  pose proof (utf8_outcome (c :: s) Hs) as H.
  destruct (utf8 (c :: s)) as [[d] | bs]; [exact H|].
  destruct H as [H1 H2]. split; [exact H1|].
  now apply quote_from_bytes_plain.
Qed.

(** How [quote_plus] ends on a string of code points: it raises on the
    first surrogate, and otherwise its result is made of unreserved ASCII
    characters, [+] and [%] only. *)
Lemma quote_plus_outcome (s : str) :
  Forall code_point s ->
  match quote_plus s with
  | inr q =>
      Forall (fun c => is_surrogate c = false) s /\
      Forall (fun c => url_plain c = true) q
  | inl (MkUnicodeEncodeError c) => In c s /\ is_surrogate c = true
  end.
Proof.
  intros Hs. unfold quote_plus.
  destruct (existsb (N.eqb 0x20) s); cbn [negb].
  - pose proof (quote_outcome true s Hs) as H.
    destruct (quote true s) as [[d] | q]; [exact H|].
    destruct H as [H1 H2]. split; [exact H1|].
    unfold replace_space_plus. apply List.Forall_forall. intros c Hc.
    apply in_map_iff in Hc as (x & <- & Hx).
    destruct (N.eqb_spec x 0x20) as [-> | Hne]; [reflexivity|].
    destruct (proj1 (List.Forall_forall _ _) H2 x Hx) as [H | [_ H]];
      [exact H | contradiction].
  - pose proof (quote_outcome false s Hs) as H.
    destruct (quote false s) as [[d] | q]; [exact H|].
    destruct H as [H1 H2]. split; [exact H1|].
    eapply List.Forall_impl; [|exact H2]. cbn. intros c [H | [H _]];
      [exact H | discriminate].
Qed.

Lemma hexdigits_read_back :
  forallb (fun n => match hexval (hexdigit n) with
                    | Some m => m =? n
                    | None => false
                    end) (map N.of_nat (seq 0 16)) = true.
Proof. vm_compute. reflexivity. Qed.

Lemma hexval_hexdigit n : n < 16 -> hexval (hexdigit n) = Some n.
Proof.
  intros Hn.
  assert (Hin : In n (map N.of_nat (seq 0 16))).
  { apply in_map_iff. exists (N.to_nat n). split; [apply N2Nat.id|].
    apply in_seq. lia. }
  pose proof (proj1 (forallb_forall _ _) hexdigits_read_back n Hin) as H.
  cbv beta in H. destruct (hexval (hexdigit n)) as [m|]; [|discriminate].
  apply N.eqb_eq in H. now subst.
Qed.

Lemma always_safe_not_special b :
  always_safe b = true -> b <> 0x20 /\ b <> 0x25 /\ b <> 0x2B.
Proof.
  intros H. repeat split; intros ->; vm_compute in H; discriminate.
Qed.

Lemma hexdigit_not_space n : hexdigit n <> 0x20.
Proof. unfold hexdigit. destruct (n <? 10); lia. Qed.

Lemma map_flat_map {A B C} (f : B -> C) (g : A -> list B) (l : list A) :
  map f (flat_map g l) = flat_map (fun a => map f (g a)) l.
Proof.
  induction l as [|a l IH]; [reflexivity|].
  cbn [flat_map]. now rewrite map_app, IH.
Qed.

(** The result of [quote_plus], byte by byte. *)
Lemma quote_plus_escaped (s : str) (bs : list N) :
  utf8 s = inr bs ->
  quote_plus s = inr (flat_map (escaped (existsb (N.eqb 0x20) s)) bs).
Proof.
  intros Hbs. unfold quote_plus, quote.
  destruct s as [|c s].
  { cbn in Hbs. injection Hbs as <-. reflexivity. }
  rewrite Hbs. destruct (existsb (N.eqb 0x20) (c :: s)); cbn [negb].
  - f_equal. unfold replace_space_plus, quote_from_bytes.
    rewrite map_flat_map. apply flat_map_ext. intros b. unfold escaped.
    destruct (always_safe b) eqn:Hs; cbn [orb andb].
    + destruct (always_safe_not_special b Hs) as (H & _).
      cbn [map]. destruct (N.eqb_spec b 0x20); [contradiction | reflexivity].
    + destruct (N.eqb_spec b 0x20) as [-> | Hb]; [reflexivity|].
      unfold percent. cbn [map].
      destruct (N.eqb_spec (hexdigit (b / 16)) 0x20) as [E | _];
        [now apply hexdigit_not_space in E|].
      destruct (N.eqb_spec (hexdigit (b mod 16)) 0x20) as [E | _];
        [now apply hexdigit_not_space in E|].
      reflexivity.
  - f_equal. unfold quote_from_bytes. apply flat_map_ext. intros b.
    unfold escaped. now destruct (always_safe b).
Qed.

(** Reading back the characters of one byte gives the byte. *)
Lemma unquote_plus_escaped (plus : bool) (b : N) (rest : str) :
  b < 256 ->
  unquote_plus (escaped plus b ++ rest) =
    option_map (cons b) (unquote_plus rest).
Proof.
  intros Hb. unfold escaped. destruct (always_safe b) eqn:Hs.
  - destruct (always_safe_not_special b Hs) as (_ & H1 & H2).
    cbn [app unquote_plus].
    destruct (N.eqb_spec b 0x25); [contradiction|].
    destruct (N.eqb_spec b 0x2B); [contradiction | reflexivity].
  - destruct (plus && (b =? 0x20)) eqn:E.
    + apply andb_prop in E as [_ E]. apply N.eqb_eq in E. subst b.
      reflexivity.
    + unfold percent. cbn [app unquote_plus].
      change (0x25 =? 0x25) with true. cbv iota.
      rewrite !hexval_hexdigit
        by (apply N.mod_lt || apply N.Div0.div_lt_upper_bound; lia).
      destruct (unquote_plus rest); cbn [option_map]; [|reflexivity].
      do 2 f_equal. symmetry. apply N.Div0.div_mod.
Qed.

Lemma unquote_plus_bytes (plus : bool) (bs : list N) :
  Forall (fun b => b < 256) bs ->
  unquote_plus (flat_map (escaped plus) bs) = Some bs.
Proof.
  induction 1 as [|b bs Hb _ IH]; [reflexivity|].
  cbn [flat_map]. now rewrite unquote_plus_escaped, IH.
Qed.

(** Reading back the bytes of one code point gives the code point. *)
Lemma utf8_decode_char (c : char) (bs rest : list N) :
  code_point c -> utf8_char c = inr bs ->
  utf8_decode (bs ++ rest) = option_map (cons c) (utf8_decode rest).
Proof.
  unfold code_point, utf8_char. intros Hc.
  pose proof (N.Div0.div_mod c 64) as E1.
  pose proof (N.Div0.div_mod (c / 64) 64) as E2.
  pose proof (N.Div0.div_mod (c / 4096) 64) as E3.
  pose proof (N.Div0.div_div c 64 64) as D2. change (64 * 64) with 4096 in D2.
  pose proof (N.Div0.div_div c 4096 64) as D3.
  change (4096 * 64) with 262144 in D3.
  rewrite D2 in E2. rewrite D3 in E3. clear D2 D3.
  assert (Hm : forall a, a mod 64 < 64) by (intros; apply N.mod_lt; lia).
  pose proof (Hm c) as M1. pose proof (Hm (c / 64)) as M2.
  pose proof (Hm (c / 4096)) as M3. clear Hm.
  set (q1 := c / 64) in *. set (q2 := c / 4096) in *.
  set (q3 := c / 262144) in *. set (r1 := c mod 64) in *.
  set (r2 := q1 mod 64) in *. set (r3 := q2 mod 64) in *.
  destruct (N.ltb_spec c 0x80) as [H1 | H1].
  { intros [= <-]. cbn [app utf8_decode].
    destruct (N.ltb_spec c 0x80); [reflexivity | lia]. }
  destruct (N.ltb_spec c 0x800) as [H2 | H2].
  { intros [= <-]. cbn [app utf8_decode].
    destruct (N.ltb_spec (0xC0 + q1) 0x80); [lia|].
    destruct (N.ltb_spec (0xC0 + q1) 0xE0); [|lia].
    destruct (utf8_decode rest); cbn [option_map]; [|reflexivity].
    do 2 f_equal. lia. }
  destruct (N.ltb_spec c 0x10000) as [H3 | H3].
  { destruct (is_surrogate c); [discriminate|].
    intros [= <-]. cbn [app utf8_decode].
    destruct (N.ltb_spec (0xE0 + q2) 0x80); [lia|].
    destruct (N.ltb_spec (0xE0 + q2) 0xE0); [lia|].
    destruct (N.ltb_spec (0xE0 + q2) 0xF0); [|lia].
    destruct (utf8_decode rest); cbn [option_map]; [|reflexivity].
    do 2 f_equal. lia. }
  intros [= <-]. cbn [app utf8_decode].
  destruct (N.ltb_spec (0xF0 + q3) 0x80); [lia|].
  destruct (N.ltb_spec (0xF0 + q3) 0xE0); [lia|].
  destruct (N.ltb_spec (0xF0 + q3) 0xF0); [lia|].
  destruct (utf8_decode rest); cbn [option_map]; [|reflexivity].
  do 2 f_equal. lia.
Qed.

Lemma utf8_decode_utf8 (s : str) (bs : list N) :
  Forall code_point s -> utf8 s = inr bs -> utf8_decode bs = Some s.
Proof.
  intros Hs. revert bs. induction Hs as [|c s Hc _ IH]; intros bs.
  - intros [= <-]. reflexivity.
  - cbn [utf8]. destruct (utf8_char c) as [e | b1] eqn:E1; [discriminate|].
    destruct (utf8 s) as [e | b2]; [discriminate|]. intros [= <-].
    now rewrite (utf8_decode_char c b1 b2 Hc E1), (IH b2 eq_refl).
Qed.

Lemma quote_plus_inr (s q : str) :
  quote_plus s = inr q -> exists bs, utf8 s = inr bs.
Proof.
  unfold quote_plus, quote. destruct s as [|c s]; [now exists []|].
  destruct (utf8 (c :: s)) as [e | bs]; [|eauto].
  now destruct (negb (existsb (N.eqb 0x20) (c :: s))).
Qed.

(** The database URL, for any environment whose password is a string of
    code points. If the password holds a surrogate (as an undecodable byte
    of the environment gives), building the URL raises [UnicodeEncodeError].
    Otherwise the URL is the five settings, or their defaults, in their
    places, with the password escaped: every character of the password's
    field is an unreserved ASCII character, [+] or [%], so none is [:], [@]
    or [/], and reading the field back (percent-decoding, then UTF-8
    decoding) gives the password. *)
Theorem database_url_escapes_password (env : environ) :
  Forall code_point (getenv env "DB_PASSWORD" (lit "password")) ->
  match get_database_url env with
  | inr url =>
      Forall (fun c => is_surrogate c = false)
             (getenv env "DB_PASSWORD" (lit "password")) /\
      exists field,
        decode_password field =
          Some (getenv env "DB_PASSWORD" (lit "password")) /\
        Forall (fun c => url_plain c = true /\
                         c <> 0x3A /\ c <> 0x40 /\ c <> 0x2F) field /\
        url = lit "postgresql://" ++ getenv env "DB_USERNAME" (lit "user")
              ++ lit ":" ++ field ++ lit "@"
              ++ getenv env "DB_ENDPOINT" (lit "localhost")
              ++ lit ":" ++ getenv env "DB_PORT" (lit "5432")
              ++ lit "/" ++ getenv env "DB_NAME" (lit "gematria_db")
  | inl (MkUnicodeEncodeError c) =>
      In c (getenv env "DB_PASSWORD" (lit "password")) /\
      is_surrogate c = true
  end.
Proof.
  intros Hp. unfold get_database_url.
  set (password := getenv env "DB_PASSWORD" (lit "password")) in *.
  pose proof (quote_plus_outcome password Hp) as H.
  destruct (quote_plus password) as [[d] | field] eqn:E; [exact H|].
  destruct H as [H1 H2]. split; [exact H1|].
  destruct (quote_plus_inr password field E) as [bs Hbs].
  pose proof (utf8_outcome password Hp) as Hu. rewrite Hbs in Hu.
  destruct Hu as [_ Hbytes].
  rewrite (quote_plus_escaped password bs Hbs) in E. injection E as <-.
  eexists. split; [|split; [|reflexivity]].
  - unfold decode_password. rewrite unquote_plus_bytes by exact Hbytes.
    now apply utf8_decode_utf8.
  - eapply List.Forall_impl; [|exact H2]. cbn. intros c Hc.
    split; [exact Hc | now apply url_plain_not_reserved].
Qed.

Lemma database_url_escapes_password_witness :
  match get_database_url env_password with
  | inr url =>
      Forall (fun c => is_surrogate c = false)
             (getenv env_password "DB_PASSWORD" (lit "password")) /\
      exists field,
        decode_password field =
          Some (getenv env_password "DB_PASSWORD" (lit "password")) /\
        Forall (fun c => url_plain c = true /\
                         c <> 0x3A /\ c <> 0x40 /\ c <> 0x2F) field /\
        url = lit "postgresql://"
              ++ getenv env_password "DB_USERNAME" (lit "user")
              ++ lit ":" ++ field ++ lit "@"
              ++ getenv env_password "DB_ENDPOINT" (lit "localhost")
              ++ lit ":" ++ getenv env_password "DB_PORT" (lit "5432")
              ++ lit "/" ++ getenv env_password "DB_NAME" (lit "gematria_db")
  | inl (MkUnicodeEncodeError c) =>
      In c (getenv env_password "DB_PASSWORD" (lit "password")) /\
      is_surrogate c = true
  end.
Proof.
  apply (database_url_escapes_password env_password).
  repeat constructor; unfold code_point; lia.
Defined.

End Configuration.

(* ===================================================================== *)
(** ** Splitting a batch                                                   *)
(* ===================================================================== *)

Section Batches.
Import Py Hebrew Backend Spec.

Lemma keys_fresh_app (k1 k2 : list str) (rows : list Db.row) (s : N)
  (new : list Db.row) :
  map Db.normalized new = k1 ->
  keys_fresh (k1 ++ k2) (Db.Database rows s) ->
  keys_fresh k1 (Db.Database rows s) /\
  forall s', keys_fresh k2 (Db.Database (rows ++ new) s').
Proof.
  intros Hnew [Hnd Hout]. cbn [Db.gematria_words] in *.
  apply List.Forall_app in Hout as [Hout1 Hout2].
  split; split.
  - now apply NoDup_app_remove_r in Hnd.
  - exact Hout1.
  - now apply NoDup_app_remove_l in Hnd.
  - cbn [Db.gematria_words]. rewrite map_app, Hnew.
    apply List.Forall_forall. intros k Hk Hin.
    apply in_app_or in Hin as [Hin | Hin].
    + now apply (proj1 (List.Forall_forall _ _) Hout2 k Hk).
    + clear Hout1 Hout2 Hnew. induction k1 as [|a k1 IH]; [destruct Hin|].
      cbn in Hnd. apply List.NoDup_cons_iff in Hnd as [Ha Hnd].
      destruct Hin as [-> | Hin]; [|now apply IH].
      apply Ha, in_or_app. now right.
Qed.

(** A committed run on a file in two parts is a committed run on the first
    part followed by a committed run on the second, the clock going on
    where the first run left it; both ways end in the same store. *)
Theorem main_of_concatenation utcnow (f1 f2 : list str)
  (db db2 : Db.database) :
  SeedDb.main utcnow (f1 ++ f2) db = (db2, None) ->
  exists db1,
    SeedDb.main utcnow f1 db = (db1, None) /\
    SeedDb.main (fun i => utcnow (length f1 + i)%nat) f2 db1 = (db2, None).
Proof.
  intros Hrun.
  destruct (main_outcome utcnow (f1 ++ f2) db)
    as [((Hk & Hnul & Hint) & H) | (_ & d & e & H & _)]; [|congruence].
  rewrite H in Hrun. injection Hrun as <-. clear H.
  destruct db as [rows s]. cbn [Db.gematria_words Db.id_seq].
  rewrite map_app in Hk.
  apply List.Forall_app in Hnul as [Hnul1 Hnul2].
  apply List.Forall_app in Hint as [Hint1 Hint2].
  destruct (keys_fresh_app _ _ rows s (imap (stored_row utcnow (Db.Database rows s)) f1)
              (map_normalized_stored _ _ _) Hk) as [Hk1 Hk2].
  destruct (main_outcome utcnow f1 (Db.Database rows s))
    as [(_ & H1) | (Hno & _)];
    [|destruct Hno; split; [exact Hk1 | split; assumption]].
  eexists. split; [exact H1|].
  match goal with
  | |- SeedDb.main ?u f2 ?d = _ =>
      destruct (main_outcome u f2 d) as [(_ & H2) | (Hno & _)];
        [etransitivity; [exact H2|]
        | destruct Hno; split; [apply Hk2 | split; assumption]]
  end.
  cbn [Db.gematria_words Db.id_seq].
  rewrite imap_app, length_app, <- app_assoc.
  f_equal. f_equal; [|lia]. do 2 f_equal.
  apply imap_ext. intros i line _. unfold stored_row.
  cbn [Db.id_seq]. f_equal. lia.
Qed.

Lemma main_of_concatenation_witness :
  exists db1,
    SeedDb.main tick [bereshit_pointed ++ [0x0A]] Db.empty = (db1, None) /\
    SeedDb.main (fun i => tick (1 + i)%nat)
                [[yod; he; vav; he; 0x0A]; [0x61; 0x62; 0x0A]] db1 =
      (fst (SeedDb.main tick words_file Db.empty), None).
Proof.
  apply (main_of_concatenation tick [bereshit_pointed ++ [0x0A]]
           [[yod; he; vav; he; 0x0A]; [0x61; 0x62; 0x0A]] Db.empty
           (fst (SeedDb.main tick words_file Db.empty))).
  vm_compute. reflexivity.
Defined.

End Batches.
